(** * conversor_web: the file batch of [src/App.jsx]

    A shallow embedding of the state and the handlers of the [App]
    component: the list [files] of tracked images, the phase [appState], and
    the handlers [handleFilesAccepted], [handleTargetTypeChange],
    [handleApplyToAll], [handleConvert], [handleDownloadAll] and
    [handleReset], followed by the properties of the batch life cycle.

    JavaScript strings are modelled as [string]; the only characters the
    handlers look for are ['.'] and ['/'], single code units in every
    encoding, so the positions computed here are those of the source.
    Numbers that are array indices are [nat], [lastModified] is a [Z]. *)

From Stdlib Require Import ZArith Ascii String Lia.
From Stdlib.Strings Require Import Byte.
From stdpp Require Import base tactics option list numbers strings pretty.

Open Scope string_scope.

(** ** JavaScript string primitives used by the handlers *)
Module JS.

(** [s.lastIndexOf(c)]: the position of the last [c] in [s], or [-1]. *)
Fixpoint lastIndexOf (c : ascii) (s : string) : Z :=
  match s with
  | EmptyString => (-1)%Z
  | String a rest =>
      let r := lastIndexOf c rest in
      if (0 <=? r)%Z then (1 + r)%Z
      else if Ascii.eqb a c then 0%Z else (-1)%Z
  end.

(** Both arguments of [substring] are clamped into [0 .. length]. *)
Definition clamp (len : nat) (z : Z) : nat :=
  Z.to_nat (Z.min (Z.max z 0) (Z.of_nat len)).

(** [s.substring(from, to)]: arguments clamped, then swapped when
    [from > to]. *)
Definition substring (s : string) (from to : Z) : string :=
  let a := clamp (String.length s) from in
  let b := clamp (String.length s) to in
  String.substring (Nat.min a b) (Nat.max a b - Nat.min a b) s.

(** [s.split(sep)] for a one-character separator. *)
Fixpoint split (sep : ascii) (s : string) : list string :=
  match s with
  | EmptyString => [EmptyString]
  | String a rest =>
      if Ascii.eqb a sep then EmptyString :: split sep rest
      else match split sep rest with
           | piece :: pieces => String a piece :: pieces
           | [] => [String a EmptyString]
           end
  end.

(** [c] occurs in [s]. *)
Fixpoint includes (c : ascii) (s : string) : bool :=
  match s with
  | EmptyString => false
  | String a rest => Ascii.eqb a c || includes c rest
  end.

(** [Promise.all(promises)] over promises that all fulfil: [order] lists
    the indices in the order in which the promises settle.  Each
    fulfilment stores its value in the slot of its own index; the combined
    promise resolves, with the slots in index order, once no slot is
    empty, and stays unresolved ([None]) until then. *)
Definition settle {A} (promises : list A) (values : list (option A))
    (i : nat) : list (option A) :=
  match promises !! i with
  | Some v => <[i := Some v]> values
  | None => values
  end.

Definition Promise_all {A} (order : list nat) (promises : list A)
    : option (list A) :=
  mapM (fun slot => slot)
       (foldl (settle promises) (replicate (length promises) None) order).

End JS.

(** ** Data model *)

Definition Blob := list byte.

(** A browser [File]. *)
Record File := mkFile {
  name : string;
  lastModified : Z;
  type : string;
  bits : Blob
}.

(** [status] of an entry: ['pending'], ['converting'], ['converted'],
    ['error']. *)
Inductive Status := pending | converting | converted | error.

(** [appState]: ['upload'], ['managing'], ['converted']. *)
Inductive AppState := Upload | Managing | Converted.

Global Instance Status_eq_dec : EqDecision Status.
Proof. solve_decision. Defined.
Global Instance AppState_eq_dec : EqDecision AppState.
Proof. solve_decision. Defined.

(** One element of [files].  [originalType] is [file.type.split('/')[1]],
    which is [undefined] ([None]) when the MIME type has no ['/']. *)
Record FileEntry := mkEntry {
  id : string;
  originalFile : File;
  originalName : string;
  originalType : option string;
  targetType : string;
  status : Status;
  convertedFile : option File
}.

(** The spreads [{ ...file, field: v }] of the handlers. *)
Definition with_targetType (newType : string) (file : FileEntry) : FileEntry :=
  mkEntry (id file) (originalFile file) (originalName file)
          (originalType file) newType (status file) (convertedFile file).

Definition with_status (st : Status) (file : FileEntry) : FileEntry :=
  mkEntry (id file) (originalFile file) (originalName file)
          (originalType file) (targetType file) st (convertedFile file).

Definition with_converted (finalFile : File) (file : FileEntry) : FileEntry :=
  mkEntry (id file) (originalFile file) (originalName file)
          (originalType file) (targetType file) converted (Some finalFile).

(** The options object handed to [imageCompression]. *)
Record Options := mkOptions {
  maxSizeMB : nat;
  maxWidthOrHeight : nat;
  useWebWorker : bool;
  mimeType : string
}.

(** What the handlers take from their environment: the compression
    library, whose promise for the task of a given index either fulfils with
    a file or rejects ([None]), and the clock that stamps [new File]. *)
Record Browser := mkBrowser {
  imageCompression : nat → File → Options → option File;
  Date_now : nat → Z
}.

(** ** The handlers *)

(** The entry built for [file] at position [index] by
    [handleFilesAccepted]. *)
Definition newFile (index : nat) (file : File) : FileEntry :=
  {| id := name file +:+ "-" +:+ pretty (lastModified file)
                     +:+ "-" +:+ pretty index;
     originalFile := file;
     originalName := name file;
     originalType := JS.split "/" (type file) !! 1%nat;
     targetType := "webp";
     status := pending;
     convertedFile := None |}.

Definition newFiles (acceptedFiles : list File) : list FileEntry :=
  imap newFile acceptedFiles.

(** [files.map(file => file.id === id ? {...file, targetType} : file)] *)
Definition handleTargetTypeChange (id0 newType : string)
    (files : list FileEntry) : list FileEntry :=
  (fun file => if String.eqb (id file) id0
               then with_targetType newType file else file) <$> files.

Definition handleApplyToAll (newType : string)
    (files : list FileEntry) : list FileEntry :=
  with_targetType newType <$> files.

(** The first statement of [handleConvert]. *)
Definition markConverting (files : list FileEntry) : list FileEntry :=
  with_status converting <$> files.

Definition options (file : FileEntry) : Options :=
  {| maxSizeMB := 1;
     maxWidthOrHeight := 1920;
     useWebWorker := true;
     mimeType := "image/" +:+ targetType file |}.

Definition newName (file : FileEntry) : string :=
  JS.substring (originalName file) 0 (JS.lastIndexOf "." (originalName file))
    +:+ "." +:+ targetType file.

(** The body of the [async (file) => ...] of [handleConvert], for the task
    of index [index]: the [try] branch when the compression fulfils, the
    [catch] branch when it rejects. *)
Definition conversionTask (env : Browser) (index : nat)
    (file : FileEntry) : FileEntry :=
  match imageCompression env index (originalFile file) (options file) with
  | Some compressedFile =>
      let finalFile :=
        {| name := newName file;
           lastModified := Date_now env index;
           type := "image/" +:+ targetType file;
           bits := bits compressedFile |} in
      with_converted finalFile file
  | None => with_status error file
  end.

(** The values of [conversionPromises], one per element of [files]. *)
Definition conversionPromises (env : Browser)
    (files : list FileEntry) : list FileEntry :=
  imap (conversionTask env) files.

(** [updatedFiles = await Promise.all(conversionPromises)] *)
Definition updatedFiles (env : Browser) (order : list nat)
    (files : list FileEntry) : option (list FileEntry) :=
  JS.Promise_all order (conversionPromises env files).

(** [handleDownloadAll]: the calls [zip.file(name, data)] it makes, in
    order, and the name under which [saveAs] delivers the archive. *)
Definition zipFiles (files : list FileEntry) : list (string * File) :=
  omap (fun file =>
          match status file, convertedFile file with
          | converted, Some f => Some (name f, f)
          | _, _ => None
          end) files.

Definition archiveName : string := "imagens-convertidas.zip".

Definition handleDownloadAll (files : list FileEntry)
    : list (string * File) * string :=
  (zipFiles files, archiveName).

(** [handleDownload]: the file handed to [saveAs], if any. *)
Definition handleDownload (file : FileEntry) : option File :=
  convertedFile file.

(** ** The component state and its events *)

(** The two [useState] cells, and the calls of [handleConvert] whose
    [await Promise.all] has not resumed yet: each holds the [files] array it
    closed over when it was called. *)
Record App := mkApp {
  files : list FileEntry;
  appState : AppState;
  awaiting : list (list FileEntry)
}.

Definition initial : App := mkApp [] Upload [].

Definition handleFilesAccepted (acceptedFiles : list File) (s : App) : App :=
  mkApp (newFiles acceptedFiles) Managing (awaiting s).

Definition handleReset (s : App) : App :=
  mkApp [] Upload (awaiting s).

(** [handleConvert] up to its [await]: the entries shown become
    ['converting'], and the tasks start on the [files] of this render. *)
Definition handleConvert_call (s : App) : App :=
  mkApp (markConverting (files s)) (appState s) (awaiting s ++ [files s]).

(** [handleConvert] after its [await], for the call number [job]: once
    [Promise.all] resolves, [setFiles(updatedFiles)] and
    [setAppState('converted')].  Nothing happens while it is unresolved. *)
Definition handleConvert_resume (job : nat) (env : Browser)
    (order : list nat) (s : App) : App :=
  match awaiting s !! job with
  | Some closed =>
      match updatedFiles env order closed with
      | Some updated => mkApp updated Converted (delete job (awaiting s))
      | None => s
      end
  | None => s
  end.

(** A whole run of [handleConvert] with nothing in between: the call, then
    the resumption of that same call. *)
Definition handleConvert (env : Browser) (order : list nat) (s : App) : App :=
  handleConvert_resume (length (awaiting s)) env order (handleConvert_call s).

Inductive Event :=
  | FilesAccepted (acceptedFiles : list File)
  | TargetTypeChange (id0 newType : string)
  | ApplyToAll (newType : string)
  | Convert
  | Resume (job : nat) (env : Browser) (order : list nat)
  | Reset.

Definition handle (ev : Event) (s : App) : App :=
  match ev with
  | FilesAccepted acceptedFiles => handleFilesAccepted acceptedFiles s
  | TargetTypeChange id0 newType =>
      mkApp (handleTargetTypeChange id0 newType (files s))
            (appState s) (awaiting s)
  | ApplyToAll newType =>
      mkApp (handleApplyToAll newType (files s)) (appState s) (awaiting s)
  | Convert => handleConvert_call s
  | Resume job env order => handleConvert_resume job env order s
  | Reset => handleReset s
  end.

Definition run (evs : list Event) (s : App) : App :=
  foldl (fun s ev => handle ev s) s evs.

(** The values of the two [<select>] elements. *)
Definition formats : list string := ["webp"; "png"; "jpeg"].

Definition is_format (t : string) : bool :=
  existsb (String.eqb t) formats.

(** What the rendered page lets the user do in state [s]: the drop zone is
    rendered in phase ['upload'] only; the list with the [master-format]
    selector in the two other phases; an entry's own selector only while the
    entry is ['pending']; the convert button unless the phase is
    ['converted'], and the reset button only then.  A resumption is not a
    user action and is always possible. *)
Definition rendered (s : App) (ev : Event) : bool :=
  match ev with
  | FilesAccepted _ => bool_decide (appState s = Upload)
  | TargetTypeChange id0 newType =>
      bool_decide (appState s ≠ Upload)
      && existsb (fun file => String.eqb (id file) id0
                              && bool_decide (status file = pending))
                 (files s)
      && is_format newType
  | ApplyToAll newType => bool_decide (appState s ≠ Upload) && is_format newType
  | Convert => bool_decide (appState s = Managing)
  | Resume _ _ _ => true
  | Reset => bool_decide (appState s = Converted)
  end.

(** States reached by any sequence of handler calls. *)
Inductive reachable : App → Prop :=
  | reachable_initial : reachable initial
  | reachable_handle s ev : reachable s → reachable (handle ev s).

(** States reached through the rendered page. *)
Inductive ui_reachable : App → Prop :=
  | ui_initial : ui_reachable initial
  | ui_handle s ev :
      ui_reachable s → rendered s ev = true → ui_reachable (handle ev s).

(** The events of [evs] are offered by the page one after the other. *)
Fixpoint rendered_all (evs : list Event) (s : App) : bool :=
  match evs with
  | [] => true
  | ev :: evs => rendered s ev && rendered_all evs (handle ev s)
  end.

(** Every task among the first [n] occurs in [order]: all [n] promises of a
    call have settled. *)
Definition settles_all (order : list nat) (n : nat) : Prop :=
  Forall (fun i => i ∈ order) (seq 0 n).

Global Instance settles_all_dec order n : Decision (settles_all order n).
Proof. unfold settles_all. apply _. Defined.

(** [convertedFile] is set on the converted entries and on no other. *)
Definition blob_iff_converted (file : FileEntry) : Prop :=
  convertedFile file ≠ None ↔ status file = converted.

(** Two entries that differ at most in [targetType]. *)
Definition same_but_targetType (file file' : FileEntry) : Prop :=
  id file' = id file ∧ originalFile file' = originalFile file
  ∧ originalName file' = originalName file
  ∧ originalType file' = originalType file
  ∧ status file' = status file ∧ convertedFile file' = convertedFile file.

(** The phase and the statuses agree: nothing is listed in phase upload; in
    phase managing the entries are all pending, or all converting once the
    convert button was pressed; in phase converted each is converted or
    error. *)
Definition phase_agrees (s : App) : Prop :=
  match appState s with
  | Upload => files s = []
  | Managing =>
      Forall (fun file => status file = pending) (files s)
      ∨ Forall (fun file => status file = converting) (files s)
  | Converted =>
      Forall (fun file => status file = converted ∨ status file = error)
             (files s)
  end.

(** The stem of a name, as [handleConvert] takes it: the prefix up to the
    last ['.']. *)
Definition stem (originalName : string) : string :=
  JS.substring originalName 0 (JS.lastIndexOf "." originalName).

(** [f] is named and typed as a conversion of [file] to [target]. *)
Definition converted_as (target : string) (file : FileEntry) (f : File)
    : Prop :=
  name f = stem (originalName file) +:+ "." +:+ target
  ∧ type f = "image/" +:+ target.

(** The identifying fields of [file] are those [handleFilesAccepted] gives
    to its image at position [i]. *)
Definition built_at (i : nat) (file : FileEntry) : Prop :=
  id file = id (newFile i (originalFile file))
  ∧ originalName file = name (originalFile file)
  ∧ originalType file = originalType (newFile i (originalFile file)).

Definition well_built (files : list FileEntry) : Prop :=
  ∀ i file, files !! i = Some file → built_at i file.

(** An action of the user, as opposed to the resumption of a call. *)
Definition user_event (ev : Event) : bool :=
  match ev with
  | Resume _ _ _ => false
  | _ => true
  end.

(** ** Sample data *)
Module Sample.
Definition a_png : File := mkFile "a.png" 1700000000000 "image/png" [x01].
Definition b_jpg : File := mkFile "b.jpg" 1700000000001 "image/jpeg" [x02].
Definition c_png : File := mkFile "c.png" 1700000000002 "image/png" [x03].
Definition README : File := mkFile "README" 5 "image/png" [x04].

(** A compression that fulfils for every task. *)
Definition fulfils : Browser :=
  mkBrowser (fun _ file _ => Some file) (fun _ => 1800000000000%Z).
(** A compression that rejects for every task. *)
Definition rejects : Browser :=
  mkBrowser (fun _ _ _ => None) (fun _ => 1800000000000%Z).
(** A compression that rejects for the task of index [k] only. *)
Definition rejects_at (k : nat) : Browser :=
  mkBrowser (fun i file _ => if Nat.eqb i k then None else Some file)
            (fun _ => 1800000000000%Z).

(** One image, converted. *)
Definition converted_once : list Event :=
  [FilesAccepted [a_png]; Convert; Resume 0 fulfils [0%nat]].
(** The same, then converted a second time with a compression that
    rejects. *)
Definition converted_twice : list Event :=
  converted_once ++ [Convert; Resume 0 rejects [0%nat]].
(** Three images; [b.jpg] set to jpeg, then all set to png. *)
Definition scenario : list Event :=
  [FilesAccepted [a_png; b_jpg; c_png];
   TargetTypeChange "b.jpg-1700000000001-1" "jpeg";
   ApplyToAll "png"].
End Sample.

(** Further sample runs. *)
Module Runs.
Import Sample.

(** The convert button pressed twice before the first call resumes; after
    the first resumption the batch is reset and [b.jpg] is accepted. *)
Definition pressed_twice : list Event :=
  [FilesAccepted [a_png]; Convert; Convert; Resume 0 fulfils [0%nat];
   Reset; FilesAccepted [b_jpg]].

(** Two images with the same stem, both converted. *)
Definition same_stem : list Event :=
  [FilesAccepted [a_png; mkFile "a.jpg" 7 "image/jpeg" [x05]];
   Convert; Resume 0 fulfils [0; 1]%nat].
End Runs.

Example newFiles_sample :
  id <$> newFiles [Sample.a_png; Sample.a_png] =
    ["a.png-1700000000000-0"; "a.png-1700000000000-1"].
Proof. vm_compute. reflexivity. Qed.

Example originalType_sample :
  originalType <$> newFiles [Sample.a_png; Sample.b_jpg] =
    [Some "png"; Some "jpeg"].
Proof. reflexivity. Qed.

Example handleConvert_sample :
  let s := handleConvert Sample.fulfils [1; 0]%nat
             (handleFilesAccepted [Sample.a_png; Sample.README] initial) in
  (fun e => (status e, name <$> convertedFile e)) <$> files s =
    [(converted, Some "a.webp"); (converted, Some ".webp")]
  ∧ appState s = Converted ∧ awaiting s = [].
Proof. vm_compute. auto. Qed.

Example handleConvert_unresolved :
  let s0 := handleFilesAccepted [Sample.a_png; Sample.README] initial in
  handleConvert Sample.fulfils [1]%nat s0 = handleConvert_call s0.
Proof. vm_compute. reflexivity. Qed.

(** Equal names and modification times, and names with ['-'] and digits:
    the position alone tells the ids apart. *)
Example newFiles_duplicates :
  id <$> newFiles [mkFile "x-1" 1 "image/png" []; mkFile "x-1" 1 "image/png" [];
                   mkFile "x" (-1) "image/png" []; mkFile "x-1-1" 0 "image/png" []]
  = ["x-1-1-0"; "x-1-1-1"; "x--1-2"; "x-1-1-0-3"].
Proof. vm_compute. reflexivity. Qed.

Example newName_samples :
  (fun n => newName (newFile 0 (mkFile n 0 "image/png" []))) <$>
    ["photo.final.png"; ".hidden"; "README"; "a."]
  = ["photo.final.webp"; ".webp"; ".webp"; "a.webp"].
Proof. vm_compute. reflexivity. Qed.

(** The scenario of three images: [b.jpg] is set to jpeg, then all are set
    to png; the conversion of [a.png] fails.  The archive gets [b.png] and
    [c.png], and the list still shows [a.png], in status error. *)
Example scenario_three_images :
  let s := run Sample.scenario initial in
  let s' := handleConvert (Sample.rejects_at 0) [0; 1; 2]%nat s in
  rendered_all Sample.scenario initial = true
  ∧ targetType <$> files s = ["png"; "png"; "png"]
  ∧ fst <$> fst (handleDownloadAll (files s')) = ["b.png"; "c.png"]
  ∧ (fun e => (originalName e, status e)) <$> files s'
    = [("a.png", error); ("b.jpg", converted); ("c.png", converted)].
Proof. vm_compute. auto. Qed.

(** The page does not offer a second conversion of a converted batch. *)
Example converted_twice_not_rendered :
  rendered_all Sample.converted_once initial = true
  ∧ rendered_all Sample.converted_twice initial = false.
Proof. vm_compute. auto. Qed.

(** ** [Promise.all] *)
Section Promise_all.
Context {A : Type}.
Implicit Types (promises : list A) (values : list (option A)).
Implicit Types (order : list nat).

Lemma length_settle promises values i :
  length (JS.settle promises values i) = length values.
Proof.
  unfold JS.settle. destruct (promises !! i); [apply length_insert|done].
Qed.

Lemma lookup_settle promises values i j :
  length values = length promises →
  JS.settle promises values i !! j =
    if decide (i = j) then Some <$> promises !! j else values !! j.
Proof.
  intros Hlen. unfold JS.settle. case_decide as Hij.
  - subst j. destruct (promises !! i) as [v|] eqn:Hi; simpl.
    + apply list_lookup_insert_eq. rewrite Hlen. by eapply lookup_lt_Some.
    + apply lookup_ge_None. rewrite Hlen. by apply lookup_ge_None.
  - destruct (promises !! i); [by apply list_lookup_insert_ne|done].
Qed.

(** After the promises of [order] have settled, slot [j] holds the value
    of promise [j] if [j] occurs in [order], and is as before otherwise. *)
Lemma lookup_settled promises order : ∀ values j,
  length values = length promises →
  foldl (JS.settle promises) values order !! j =
    if decide (j ∈ order) then Some <$> promises !! j else values !! j.
Proof.
  induction order as [|i order IH]; intros values j Hlen; simpl.
  - destruct (decide (j ∈ [])) as [Hin|Hin]; [by apply elem_of_nil in Hin|done].
  - rewrite IH by (by rewrite length_settle).
    rewrite lookup_settle by done.
    destruct (decide (j ∈ order)) as [Hin|Hin].
    + rewrite decide_True by (apply elem_of_cons; by right). done.
    + destruct (decide (i = j)) as [->|Hne].
      * rewrite decide_True by (apply elem_of_cons; by left). done.
      * rewrite decide_False; [done|].
        intros [?|?]%elem_of_cons; congruence.
Qed.

Lemma length_settled promises order : ∀ values,
  length (foldl (JS.settle promises) values order) = length values.
Proof.
  induction order as [|i order IH]; intros values; simpl; [done|].
  by rewrite IH, length_settle.
Qed.

(** The combined promise can only resolve with the values of the promises
    in index order, whatever the order in which they settled. *)
Lemma Promise_all_Some order promises vs :
  JS.Promise_all order promises = Some vs → vs = promises.
Proof.
  unfold JS.Promise_all. intros Hall%mapM_Some_1.
  apply list_eq. intros j.
  destruct (vs !! j) as [v|] eqn:Hv.
  - destruct (Forall2_lookup_r _ _ _ _ _ Hall Hv) as (slot & Hslot & ->).
    rewrite lookup_settled in Hslot by apply length_replicate.
    case_decide.
    + destruct (promises !! j); by simplify_eq/=.
    + by apply lookup_replicate_1 in Hslot as [? _].
  - apply lookup_ge_None in Hv. symmetry. apply lookup_ge_None.
    apply Forall2_length in Hall.
    rewrite length_settled, length_replicate in Hall. lia.
Qed.

(** It resolves as soon as every promise has settled. *)
Lemma Promise_all_settled order promises :
  (∀ i, i < length promises → i ∈ order) →
  JS.Promise_all order promises = Some promises.
Proof.
  intros Hall. unfold JS.Promise_all. apply mapM_Some_2.
  apply Forall2_same_length_lookup_2.
  { by rewrite length_settled, length_replicate. }
  intros j slot v Hslot Hv.
  rewrite lookup_settled in Hslot by apply length_replicate.
  rewrite decide_True in Hslot by (by eapply Hall, lookup_lt_Some).
  rewrite Hv in Hslot. by simplify_eq/=.
Qed.

(** It stays unresolved while some promise has not settled. *)
Lemma Promise_all_unsettled order promises i :
  i < length promises → i ∉ order → JS.Promise_all order promises = None.
Proof.
  intros Hi Hnot. unfold JS.Promise_all. apply mapM_None_2.
  apply Exists_exists. exists None. split; [|done].
  apply list_elem_of_lookup. exists i.
  rewrite lookup_settled by apply length_replicate.
  rewrite decide_False by done. by apply lookup_replicate_2.
Qed.
End Promise_all.

(** ** Strings: the shape of an id *)
Section strings.
Implicit Types (s t : string) (c : ascii).

Lemma append_nil s : "" +:+ s = s.
Proof. reflexivity. Qed.

Lemma append_cons c s t : String c s +:+ t = String c (s +:+ t).
Proof. reflexivity. Qed.

Lemma append_assoc s t u : (s +:+ t) +:+ u = s +:+ t +:+ u.
Proof.
  induction s as [|a s IH]; [done|].
  by rewrite !append_cons, IH.
Qed.

Lemma includes_append c s t :
  JS.includes c (s +:+ t) = JS.includes c s || JS.includes c t.
Proof.
  induction s as [|a s IH]; [done|].
  rewrite append_cons. simpl. by rewrite IH, orb_assoc.
Qed.

Lemma includes_digit c s x :
  JS.includes c s = false → c = "-"%char →
  JS.includes c (String (pretty_N_char x) s) = false.
Proof.
  intros Hs ->. simpl. rewrite Hs.
  unfold pretty_N_char. by repeat case_match.
Qed.

Lemma pretty_N_go_no_dash (x : N) : ∀ s,
  JS.includes "-" s = false → JS.includes "-" (pretty_N_go x s) = false.
Proof.
  induction (N.lt_wf_0 x) as [x _ IH]; intros s Hs.
  destruct (decide (x = 0)%N) as [->|Hx].
  - by rewrite pretty_N_go_0.
  - rewrite pretty_N_go_step by lia.
    apply IH; [apply N.div_lt; lia|by apply includes_digit].
Qed.

(** The decimal numeral of an array index has no ['-']. *)
Lemma pretty_nat_no_dash (n : nat) : JS.includes "-" (pretty n) = false.
Proof.
  unfold pretty, pretty_nat, pretty, pretty_N.
  case_decide; [done|]. by apply pretty_N_go_no_dash.
Qed.

(** A string is cut in one way only at its last ['-']. *)
Lemma last_dash_inj s : ∀ t p q,
  JS.includes "-" p = false → JS.includes "-" q = false →
  s +:+ String "-" p = t +:+ String "-" q → p = q.
Proof.
  induction s as [|a s IH]; intros [|b t] p q Hp Hq Heq;
    rewrite ?append_nil, ?append_cons in Heq.
  - by injection Heq.
  - injection Heq as _ ->.
    rewrite includes_append in Hp. simpl in Hp.
    rewrite orb_true_r in Hp. discriminate.
  - injection Heq as _ <-.
    rewrite includes_append in Hq. simpl in Hq.
    rewrite orb_true_r in Hq. discriminate.
  - injection Heq as _ Heq. exact (IH t p q Hp Hq Heq).
Qed.

(** No ['.'] in [s]: [lastIndexOf] answers [-1]. *)
Lemma lastIndexOf_absent c s :
  JS.includes c s = false → JS.lastIndexOf c s = (-1)%Z.
Proof.
  induction s as [|a s IH]; simpl; [done|].
  intros [Ha Hs]%orb_false_iff. rewrite (IH Hs), Ha. done.
Qed.

(** The last ['.'] of [stem.ext], where [ext] has none, is at the length of
    [stem]. *)
Lemma lastIndexOf_stem c stem ext :
  JS.includes c ext = false →
  JS.lastIndexOf c (stem +:+ String c ext) = Z.of_nat (String.length stem).
Proof.
  intros Hext. induction stem as [|a stem IH].
  - rewrite append_nil. simpl.
    by rewrite (lastIndexOf_absent _ _ Hext), Ascii.eqb_refl.
  - rewrite append_cons. simpl JS.lastIndexOf. rewrite IH.
    rewrite (proj2 (Z.leb_le _ _)) by lia. simpl String.length. lia.
Qed.

Lemma length_append s t :
  String.length (s +:+ t) = String.length s + String.length t.
Proof.
  induction s as [|a s IH]; [done|].
  rewrite append_cons. simpl. by rewrite IH.
Qed.

Lemma substring_0_append s t :
  String.substring 0 (String.length s) (s +:+ t) = s.
Proof.
  induction s as [|a s IH].
  - rewrite append_nil. by destruct t.
  - rewrite append_cons. simpl. by rewrite IH.
Qed.

(** [s.substring(0, n)] for [n] the length of a prefix of [s]. *)
Lemma substring_prefix s t :
  JS.substring (s +:+ t) 0 (Z.of_nat (String.length s)) = s.
Proof.
  unfold JS.substring, JS.clamp. rewrite length_append.
  replace (Z.to_nat (Z.min (Z.max 0 0) _)) with 0%nat by lia.
  replace (Z.to_nat (Z.min (Z.max (Z.of_nat (String.length s)) 0) _))
    with (String.length s) by lia.
  rewrite Nat.min_0_l, Nat.max_0_l, Nat.sub_0_r.
  apply substring_0_append.
Qed.

Lemma substring_0_0 s : String.substring 0 0 s = "".
Proof. by destruct s. Qed.

(** [s.substring(0, -1)] is the empty string. *)
Lemma substring_0_neg s : JS.substring s 0 (-1) = "".
Proof.
  unfold JS.substring, JS.clamp.
  replace (Z.to_nat (Z.min (Z.max 0 0) (Z.of_nat (String.length s)))) with 0%nat by lia.
  replace (Z.to_nat (Z.min (Z.max (-1) 0) (Z.of_nat (String.length s)))) with 0%nat by lia.
  apply substring_0_0.
Qed.
End strings.

(** ** The fields that the handlers keep *)
Section fields.
Implicit Types (file : FileEntry) (files : list FileEntry).

Lemma id_newFiles (acceptedFiles : list File) i (file : File) :
  acceptedFiles !! i = Some file →
  id <$> newFiles acceptedFiles !! i =
    Some (name file +:+ "-" +:+ pretty (lastModified file)
                    +:+ "-" +:+ pretty i).
Proof.
  intros Hi. unfold newFiles. by rewrite list_lookup_imap, Hi.
Qed.

(** The ids of a fresh batch are pairwise distinct: an id ends with the
    numeral of the position after its last ['-']. *)
Lemma NoDup_id_newFiles (acceptedFiles : list File) :
  NoDup (id <$> newFiles acceptedFiles).
Proof.
  apply NoDup_alt. intros i j x Hi Hj.
  rewrite list_lookup_fmap in Hi, Hj. unfold newFiles in Hi, Hj.
  rewrite list_lookup_imap in Hi, Hj.
  destruct (acceptedFiles !! i) as [fi|]; [|done].
  destruct (acceptedFiles !! j) as [fj|]; [|done].
  simpl in Hi, Hj. injection Hi as Hi. injection Hj as Hj.
  rewrite <- Hj in Hi. clear Hj.
  apply (inj pretty).
  apply (last_dash_inj (name fi +:+ "-" +:+ pretty (lastModified fi))
                       (name fj +:+ "-" +:+ pretty (lastModified fj)));
    [apply pretty_nat_no_dash..|].
  rewrite !append_assoc. exact Hi.
Qed.

(** The new name of [stem.ext] is [stem.target]. *)
Lemma newName_stem file stem ext :
  originalName file = stem +:+ String "." ext →
  JS.includes "." ext = false →
  newName file = stem +:+ "." +:+ targetType file.
Proof.
  intros Hname Hext. unfold newName.
  by rewrite Hname, lastIndexOf_stem, substring_prefix.
Qed.

Lemma id_handleTargetTypeChange id0 newType files :
  id <$> handleTargetTypeChange id0 newType files = id <$> files.
Proof.
  unfold handleTargetTypeChange. rewrite <- list_fmap_compose.
  apply list_fmap_ext. intros _ file _. simpl. by case_match.
Qed.

Lemma id_handleApplyToAll newType files :
  id <$> handleApplyToAll newType files = id <$> files.
Proof.
  unfold handleApplyToAll. by rewrite <- list_fmap_compose.
Qed.

Lemma id_markConverting files : id <$> markConverting files = id <$> files.
Proof. unfold markConverting. by rewrite <- list_fmap_compose. Qed.

Lemma id_conversionTask env i file : id (conversionTask env i file) = id file.
Proof. unfold conversionTask. by case_match. Qed.

Lemma originalName_conversionTask env i file :
  originalName (conversionTask env i file) = originalName file.
Proof. unfold conversionTask. by case_match. Qed.

Lemma id_conversionPromises env files :
  id <$> conversionPromises env files = id <$> files.
Proof.
  unfold conversionPromises. rewrite fmap_imap.
  rewrite (imap_ext _ (fun _ => id)); [apply imap_const|].
  intros i file _. apply id_conversionTask.
Qed.

Lemma originalName_conversionPromises env files :
  originalName <$> conversionPromises env files = originalName <$> files.
Proof.
  unfold conversionPromises. rewrite fmap_imap.
  rewrite (imap_ext _ (fun _ => originalName)); [apply imap_const|].
  intros i file _. apply originalName_conversionTask.
Qed.

Lemma updatedFiles_Some env order files updated :
  updatedFiles env order files = Some updated →
  updated = conversionPromises env files.
Proof. apply Promise_all_Some. Qed.

Lemma updatedFiles_settled env order files :
  (∀ i, i < length files → i ∈ order) →
  updatedFiles env order files = Some (conversionPromises env files).
Proof.
  intros Hall. apply Promise_all_settled.
  unfold conversionPromises. by rewrite length_imap.
Qed.
End fields.

(** ** Reachable states *)
Section reachability.
Implicit Types (s : App) (evs : list Event).

Lemma reachable_run evs : ∀ s, reachable s → reachable (run evs s).
Proof.
  induction evs as [|ev evs IH]; intros s Hs; [done|].
  apply IH. by constructor.
Qed.

Lemma ui_reachable_run evs : ∀ s,
  ui_reachable s → rendered_all evs s = true → ui_reachable (run evs s).
Proof.
  induction evs as [|ev evs IH]; intros s Hs Hall; [done|].
  simpl in Hall. apply andb_true_iff in Hall as [Hev Hall].
  apply IH; [by constructor|done].
Qed.

Lemma ui_reachable_reachable s : ui_reachable s → reachable s.
Proof. induction 1; by constructor. Qed.

Lemma settles_all_lt order n i : settles_all order n → i < n → i ∈ order.
Proof.
  intros Hall Hi. eapply Forall_forall in Hall; [done|].
  apply elem_of_seq. lia.
Qed.

(** What a resumption leaves in [files]: the results of the tasks of the
    call, in the order of the array the call closed over. *)
Lemma handleConvert_resume_files job env order s :
  handleConvert_resume job env order s = s
  ∨ ∃ closed, awaiting s !! job = Some closed
      ∧ handleConvert_resume job env order s =
          mkApp (conversionPromises env closed) Converted
                (delete job (awaiting s)).
Proof.
  unfold handleConvert_resume.
  destruct (awaiting s !! job) as [closed|] eqn:Hjob; [|by left].
  destruct (updatedFiles env order closed) as [updated|] eqn:Hup; [|by left].
  apply updatedFiles_Some in Hup as ->. right. by exists closed.
Qed.

Lemma handleConvert_resume_settled job env order s closed :
  awaiting s !! job = Some closed →
  settles_all order (length closed) →
  handleConvert_resume job env order s =
    mkApp (conversionPromises env closed) Converted (delete job (awaiting s)).
Proof.
  intros Hjob Hall. unfold handleConvert_resume. rewrite Hjob.
  rewrite updatedFiles_settled; [done|].
  intros i Hi. by eapply settles_all_lt.
Qed.

(** A whole run whose tasks have all settled. *)
Lemma handleConvert_settled env order s :
  settles_all order (length (files s)) →
  handleConvert env order s =
    mkApp (conversionPromises env (files s)) Converted (awaiting s).
Proof.
  intros Hall. unfold handleConvert.
  rewrite (handleConvert_resume_settled _ _ _ _ (files s)); [|simpl..].
  - simpl. f_equal.
    by rewrite delete_middle, app_nil_r.
  - by apply list_lookup_middle.
  - done.
Qed.

(** A whole run, in general: resolved or still waiting. *)
Lemma handleConvert_cases env order s :
  handleConvert env order s =
    mkApp (conversionPromises env (files s)) Converted (awaiting s)
  ∨ handleConvert env order s = handleConvert_call s.
Proof.
  unfold handleConvert.
  destruct (handleConvert_resume_files (length (awaiting s)) env order
              (handleConvert_call s)) as [->|(closed & Hjob & ->)];
    [by right|left].
  simpl in Hjob |- *.
  rewrite list_lookup_middle in Hjob by done. injection Hjob as <-.
  f_equal.
  by rewrite delete_middle, app_nil_r.
Qed.
End reachability.

(** ** Invariants of the batch *)
Section invariants.
Implicit Types (s : App) (file : FileEntry) (files : list FileEntry).

(** The ids of [files], and of every array a pending call closed over,
    are pairwise distinct. *)
Lemma distinct_ids_reachable s :
  reachable s →
  NoDup (id <$> files s)
  ∧ Forall (fun closed => NoDup (id <$> closed)) (awaiting s).
Proof.
  induction 1 as [|s ev _ [IHfiles IHjobs]]; [by split; constructor|].
  destruct ev as [acceptedFiles|id0 newType|newType| |job env order| ];
    simpl.
  - split; [apply NoDup_id_newFiles|done].
  - by rewrite id_handleTargetTypeChange.
  - by rewrite id_handleApplyToAll.
  - rewrite id_markConverting. split; [done|].
    apply Forall_app. split; [done|]. by constructor.
  - destruct (handleConvert_resume_files job env order s)
      as [->|(closed & Hjob & ->)]; [done|]. simpl.
    rewrite id_conversionPromises. split.
    + by eapply Forall_lookup_1 in IHjobs.
    + eapply Forall_forall. intros closed' Hin%list_elem_of_delete_inv.
      by eapply Forall_forall in IHjobs.
  - split; [constructor|done].
Qed.

Lemma conversionTask_converted env i file :
  status (conversionTask env i file) = converted →
  convertedFile (conversionTask env i file) ≠ None.
Proof. unfold conversionTask. by case_match. Qed.

Lemma conversionTask_status env i file :
  status (conversionTask env i file) =
    match imageCompression env i (originalFile file) (options file) with
    | Some _ => converted
    | None => error
    end.
Proof. unfold conversionTask. by case_match. Qed.

Lemma conversionTask_blob_iff env i file :
  convertedFile file = None → blob_iff_converted (conversionTask env i file).
Proof.
  intros Hnone. unfold blob_iff_converted, conversionTask.
  case_match; simpl; [done|]. rewrite Hnone. split; [done|discriminate].
Qed.

(** A converted entry has its file, after any sequence of calls. *)
Lemma converted_has_blob_reachable s :
  reachable s →
  Forall (fun file => status file = converted → convertedFile file ≠ None)
         (files s).
Proof.
  induction 1 as [|s ev _ IH]; [constructor|].
  destruct ev as [acceptedFiles|id0 newType|newType| |job env order| ];
    simpl.
  - apply Forall_forall.
    intros file (i & f & -> & _)%elem_of_lookup_imap. done.
  - unfold handleTargetTypeChange. apply Forall_fmap.
    eapply Forall_impl; [exact IH|]. intros file Hfile. simpl.
    by case_match.
  - unfold handleApplyToAll. apply Forall_fmap.
    eapply Forall_impl; [exact IH|]. by intros file Hfile.
  - unfold markConverting. apply Forall_fmap.
    apply Forall_forall. by intros file _.
  - destruct (handleConvert_resume_files job env order s)
      as [->|(closed & Hjob & ->)]; [done|]. simpl.
    apply Forall_forall.
    intros file (i & f & -> & _)%elem_of_lookup_imap.
    apply conversionTask_converted.
  - constructor.
Qed.

(** Through the page, a conversion only ever starts on entries without a
    converted file, and [convertedFile] is set exactly on the converted
    entries. *)
Lemma blob_iff_converted_ui s :
  ui_reachable s →
  (appState s ≠ Converted →
     Forall (fun file => convertedFile file = None) (files s))
  ∧ Forall (Forall (fun file => convertedFile file = None)) (awaiting s)
  ∧ Forall blob_iff_converted (files s).
Proof.
  induction 1 as [|s ev _ (IHnone & IHjobs & IHiff) Hev];
    [by repeat split; try constructor|].
  destruct ev as [acceptedFiles|id0 newType|newType| |job env order| ];
    simpl in *.
  - assert (Forall (fun file => convertedFile file = None
                                ∧ status file = pending)
                   (newFiles acceptedFiles)) as Hnew.
    { apply Forall_forall.
      by intros file (i & f & -> & _)%elem_of_lookup_imap. }
    repeat split; [| done |].
    + intros _. eapply Forall_impl; [exact Hnew|]. by intros file [? _].
    + eapply Forall_impl; [exact Hnew|].
      intros file [Hnone Hst]. unfold blob_iff_converted.
      rewrite Hnone, Hst. done.
  - unfold handleTargetTypeChange. repeat split; [| done |].
    + intros Hst. apply Forall_fmap.
      eapply Forall_impl; [exact (IHnone Hst)|].
      intros file Hfile. simpl. by case_match.
    + apply Forall_fmap. eapply Forall_impl; [exact IHiff|].
      intros file Hfile. simpl. by case_match.
  - unfold handleApplyToAll. repeat split; [| done |].
    + intros Hst. apply Forall_fmap.
      eapply Forall_impl; [exact (IHnone Hst)|]. by intros file Hfile.
    + apply Forall_fmap. eapply Forall_impl; [exact IHiff|].
      by intros file Hfile.
  - apply bool_decide_eq_true in Hev.
    assert (Forall (fun file => convertedFile file = None) (files s))
      as Hnone by (apply IHnone; by rewrite Hev).
    unfold markConverting. repeat split.
    + intros _. apply Forall_fmap.
      eapply Forall_impl; [exact Hnone|]. by intros file Hfile.
    + apply Forall_app. split; [done|]. by constructor.
    + apply Forall_fmap. eapply Forall_impl; [exact Hnone|].
      intros file Hfile. unfold blob_iff_converted. simpl.
      rewrite Hfile. done.
  - destruct (handleConvert_resume_files job env order s)
      as [->|(closed & Hjob & ->)]; [done|]. simpl.
    repeat split; [done| |].
    + eapply Forall_forall. intros closed' Hin%list_elem_of_delete_inv.
      by eapply Forall_forall in IHjobs.
    + eapply Forall_lookup_1 in IHjobs; [|done].
      apply Forall_forall.
      intros file (i & f & -> & Hf)%elem_of_lookup_imap.
      apply conversionTask_blob_iff.
      eapply Forall_lookup_1 in IHjobs; [|done]. done.
  - repeat split; [by constructor|done|constructor].
Qed.
End invariants.

(** ** The pairs handed to the archive *)
Section zip.
Lemma omap_cons {A B} (f : A → option B) (x : A) (l : list A) :
  omap f (x :: l) =
    match f x with Some y => y :: omap f l | None => omap f l end.
Proof. reflexivity. Qed.

(** The pairs are those of the converted entries that have a file. *)
Lemma zipFiles_filter (files0 : list FileEntry) :
  zipFiles files0 =
    omap (fun file => (fun f => (name f, f)) <$> convertedFile file)
         (filter (fun file => status file = converted) files0).
Proof.
  unfold zipFiles. induction files0 as [|file files0 IH]; [done|].
  rewrite filter_cons, omap_cons, IH.
  destruct (decide (status file = converted)) as [Hst|Hst].
  - rewrite omap_cons, Hst. by destruct (convertedFile file).
  - destruct (status file); try done; by destruct (convertedFile file).
Qed.

(** They do not depend on [targetType]. *)
Lemma zipFiles_handleApplyToAll newType (files0 : list FileEntry) :
  zipFiles (handleApplyToAll newType files0) = zipFiles files0.
Proof.
  unfold zipFiles, handleApplyToAll.
  induction files0 as [|file files0 IH]; [done|].
  rewrite fmap_cons, !omap_cons, IH. done.
Qed.
End zip.

(** * Properties of the batch life cycle *)

(** ** C1: [setTargetFormat] *)

(** C1, as stated, fails on the handler: [handleTargetTypeChange] tests the
    id only.  On the batch reached by converting [a.png], whose single entry
    is converted with target webp, the call with that entry's id and png
    changes the entry's target to png. *)
Lemma handleTargetTypeChange_changes_converted :
  let files0 := files (run Sample.converted_once initial) in
  status <$> files0 = [converted]
  ∧ targetType <$> files0 = ["webp"]
  ∧ targetType <$>
      handleTargetTypeChange "a.png-1700000000000-0" "png" files0 = ["png"].
Proof. vm_compute. done. Qed.

(** C1, amended: [handleTargetTypeChange id0 newType] sets the target of
    every entry whose id is [id0], whatever its status, and leaves every
    other entry as it is; for an id that no entry has, the batch is
    unchanged.  The restriction to pending entries is that of the page: in a
    state reached through the page, a change is offered only for the id of a
    pending entry (the selector of an entry is rendered only while the entry
    is pending), so that every entry the call changes is pending. *)
Theorem handleTargetTypeChange_spec (id0 newType : string)
    (files0 : list FileEntry) :
  (∀ i file, files0 !! i = Some file → id file = id0 →
     handleTargetTypeChange id0 newType files0 !! i
       = Some (with_targetType newType file))
  ∧ (∀ i file, files0 !! i = Some file → id file ≠ id0 →
     handleTargetTypeChange id0 newType files0 !! i = Some file)
  ∧ (id0 ∉ id <$> files0 → handleTargetTypeChange id0 newType files0 = files0)
  ∧ (∀ s, ui_reachable s → files s = files0 →
     rendered s (TargetTypeChange id0 newType) = true →
     ∀ file, file ∈ files0 → id file = id0 → status file = pending).
Proof.
  assert (∀ i file, files0 !! i = Some file → id file ≠ id0 →
     handleTargetTypeChange id0 newType files0 !! i = Some file) as Hother.
  { intros i file Hi Hne. unfold handleTargetTypeChange.
    rewrite list_lookup_fmap, Hi. simpl.
    by apply String.eqb_neq in Hne as ->. }
  split; [|split; [done|split]].
  - intros i file Hi <-. unfold handleTargetTypeChange.
    rewrite list_lookup_fmap, Hi. simpl. by rewrite String.eqb_refl.
  - intros Hnot. apply list_eq. intros i.
    destruct (files0 !! i) as [file|] eqn:Hi.
    + apply Hother; [done|]. intros <-. apply Hnot.
      apply list_elem_of_fmap. exists file. split; [done|].
      by eapply list_elem_of_lookup_2.
    + unfold handleTargetTypeChange. by rewrite list_lookup_fmap, Hi.
  - intros s Hs <- Hev file [i Hi]%list_elem_of_lookup Hid.
    simpl in Hev. apply andb_true_iff in Hev as [Hev _].
    apply andb_true_iff in Hev as [_ Hev].
    apply existsb_exists in Hev as (file0 & Hin & Hfile0).
    apply andb_true_iff in Hfile0 as [Hid0 Hst0].
    apply String.eqb_eq in Hid0. apply bool_decide_eq_true in Hst0.
    apply list_elem_of_In, list_elem_of_lookup in Hin as [j Hj].
    destruct (distinct_ids_reachable s (ui_reachable_reachable s Hs))
      as [Hnodup _].
    assert (i = j) as ->.
    { eapply NoDup_lookup; [exact Hnodup|..];
        rewrite list_lookup_fmap; [by rewrite Hi|].
      rewrite Hj. simpl. congruence. }
    congruence.
Qed.

Lemma handleTargetTypeChange_spec_witness :
  let s := run [FilesAccepted [Sample.a_png; Sample.b_jpg]] initial in
  handleTargetTypeChange "c.png-1700000000002-2" "png" (files s) = files s
  ∧ ∃ file, files s !! 1%nat = Some file
      ∧ id file = "b.jpg-1700000000001-1" ∧ status file = pending.
Proof.
  intros s.
  pose proof (handleTargetTypeChange_spec "c.png-1700000000002-2" "png"
                (files s)) as (_ & _ & Hunknown & _).
  pose proof (handleTargetTypeChange_spec "b.jpg-1700000000001-1" "jpeg"
                (files s)) as (_ & _ & _ & Hpage).
  split.
  - apply Hunknown. vm_compute.
    intros Hin. repeat (apply elem_of_cons in Hin as [Hin|Hin]; [discriminate Hin|]).
    by apply elem_of_nil in Hin.
  - eexists. split; [by vm_compute|]. split; [by vm_compute|].
    apply (Hpage s).
    + apply ui_reachable_run; [constructor|by vm_compute].
    + done.
    + by vm_compute.
    + apply list_elem_of_lookup. exists 1%nat. by vm_compute.
    + by vm_compute.
Defined.

(** ** C2: [convertedFile] and [status] *)

(** C2, as stated, fails for arbitrary sequences of calls: when a batch is
    converted a second time and the compression then rejects, the [catch]
    branch keeps the file of the first conversion, and the entry is in
    status error with a converted file. *)
Lemma resultBlob_kept_on_reconversion_error :
  let s := run Sample.converted_twice initial in
  reachable s
  ∧ ∃ file, files s = [file]
      ∧ status file = error ∧ convertedFile file ≠ None
      ∧ ¬ blob_iff_converted file.
Proof.
  intros s. split; [apply reachable_run; constructor|].
  eexists. split; [by vm_compute|]. simpl.
  split; [done|]. split; [done|].
  unfold blob_iff_converted. simpl. intros [Himp _].
  by specialize (Himp ltac:(done)).
Qed.

(** C2, amended: after any sequence of calls a converted entry has a
    converted file; and in every state reached through the page, where a
    conversion starts only in phase managing, an entry has a converted file
    if and only if its status is converted. *)
Theorem resultBlob_iff_converted (s : App) (file : FileEntry) :
  file ∈ files s →
  (reachable s → status file = converted → convertedFile file ≠ None)
  ∧ (ui_reachable s →
     (convertedFile file ≠ None ↔ status file = converted)).
Proof.
  intros Hin. split.
  - intros Hs. pose proof (converted_has_blob_reachable s Hs) as Hall.
    by eapply Forall_forall in Hall.
  - intros Hs. destruct (blob_iff_converted_ui s Hs) as (_ & _ & Hall).
    by eapply Forall_forall in Hall.
Qed.

Lemma resultBlob_iff_converted_witness :
  let s := run (FilesAccepted [Sample.a_png; Sample.b_jpg]
                :: [Convert; Resume 0 (Sample.rejects_at 1) [1; 0]%nat])
               initial in
  ∃ file, files s !! 1%nat = Some file
    ∧ status file = error
    ∧ (convertedFile file ≠ None ↔ status file = converted).
Proof.
  intros s. eexists. split; [by vm_compute|]. split; [done|].
  eapply (resultBlob_iff_converted s).
  - apply list_elem_of_lookup. exists 1%nat. by vm_compute.
  - apply ui_reachable_run; [constructor|by vm_compute].
Defined.

(** ** C3: every entry is settled when [handleConvert] resumes *)

(** C3: once every task of a call of [handleConvert] has settled, so that
    the call resumes, [files] holds one result per entry of the batch the
    call started on, and every result is converted or error: none is pending
    or converting.  The phase is converted.  A task is issued for every
    entry, whatever its status was at the call, also for one that was
    already converted or error: the status of the result at a position is
    error exactly when the compression issued for the entry at that
    position, on its original file and with its target, rejected, and
    converted exactly when it fulfilled. *)
Theorem convertAll_settles_every_entry (env : Browser) (order : list nat)
    (s : App) :
  settles_all order (length (files s)) →
  let s' := handleConvert env order s in
  files s' = imap (conversionTask env) (files s)
  ∧ length (files s') = length (files s)
  ∧ Forall (fun file => status file = converted ∨ status file = error)
           (files s')
  ∧ Forall (fun file => status file ≠ pending ∧ status file ≠ converting)
           (files s')
  ∧ appState s' = Converted
  ∧ (∀ i file, files s !! i = Some file →
       (status <$> files s' !! i = Some error
        ↔ imageCompression env i (originalFile file) (options file) = None)
       ∧ (status <$> files s' !! i = Some converted
          ↔ is_Some (imageCompression env i (originalFile file)
                       (options file)))).
Proof.
  intros Hall s'. unfold s'. rewrite handleConvert_settled by done. simpl.
  unfold conversionPromises.
  split; [done|]. split; [apply length_imap|].
  split; [|split; [|split; [done|]]].
  - apply Forall_forall. intros file (i & f & -> & _)%elem_of_lookup_imap.
    rewrite conversionTask_status.
    destruct (imageCompression env i (originalFile f) (options f)); auto.
  - apply Forall_forall. intros file (i & f & -> & _)%elem_of_lookup_imap.
    rewrite conversionTask_status.
    destruct (imageCompression env i (originalFile f) (options f)); auto.
  - intros i file Hi. rewrite list_lookup_imap, Hi. simpl.
    rewrite conversionTask_status.
    destruct (imageCompression env i (originalFile file) (options file))
      as [c|]; split; split; done.
Qed.

Lemma convertAll_settles_every_entry_witness :
  let s := run [FilesAccepted [Sample.a_png; Sample.b_jpg; Sample.c_png]]
               initial in
  let converted_s := run Sample.converted_once initial in
  settles_all [2; 0; 1]%nat (length (files s))
  ∧ status <$> files (handleConvert (Sample.rejects_at 0) [2; 0; 1]%nat s)
      = [error; converted; converted]
  ∧ status <$> files converted_s = [converted]
  ∧ status <$> files (handleConvert Sample.rejects [0%nat] converted_s) !! 0%nat
      = Some error.
Proof.
  intros s converted_s.
  assert (settles_all [2; 0; 1]%nat (length (files s))) as Hall.
  { apply (bool_decide_unpack _). by vm_compute. }
  split; [exact Hall|]. split; [|split; [by vm_compute|]].
  - destruct (convertAll_settles_every_entry (Sample.rejects_at 0)
                [2; 0; 1]%nat s Hall) as (-> & _).
    by vm_compute.
  - assert (settles_all [0%nat] (length (files converted_s))) as Hall'.
    { apply (bool_decide_unpack _). by vm_compute. }
    destruct (convertAll_settles_every_entry Sample.rejects [0%nat]
                converted_s Hall') as (_ & _ & _ & _ & _ & Hissued).
    assert (∃ file, files converted_s !! 0%nat = Some file) as [file Hfile].
    { eexists. by vm_compute. }
    destruct (Hissued 0%nat file Hfile) as [[_ Herror] _].
    by apply Herror.
Defined.

(** ** C4: a failing task is isolated *)

(** C4: let the compression of the task of entry [k] reject, and let every
    task settle.  Then the run of [handleConvert] completes (one result per
    entry, phase converted); the entries in status error are exactly those
    whose own compression rejected, entry [k] among them; and with an
    environment that differs from this one at most on task [k], so also
    with one in which task [k] succeeds, every other entry gets the same
    result. *)
Theorem failure_is_isolated (env env' : Browser) (order : list nat)
    (s : App) (k : nat) (file : FileEntry) :
  files s !! k = Some file →
  imageCompression env k (originalFile file) (options file) = None →
  settles_all order (length (files s)) →
  (∀ i f o, i ≠ k →
     imageCompression env' i f o = imageCompression env i f o
     ∧ Date_now env' i = Date_now env i) →
  let s' := handleConvert env order s in
  files s' !! k = Some (with_status error file)
  ∧ (∀ i f, files s !! i = Some f →
       (status <$> files s' !! i = Some error
        ↔ imageCompression env i (originalFile f) (options f) = None))
  ∧ length (files s') = length (files s)
  ∧ appState s' = Converted
  ∧ (∀ i, i ≠ k → files (handleConvert env' order s) !! i = files s' !! i).
Proof.
  intros Hk Hfail Hall Hsame s'. unfold s'.
  rewrite !handleConvert_settled by done. simpl. unfold conversionPromises.
  split; [|split; [|split; [|split]]].
  - rewrite list_lookup_imap, Hk. simpl. unfold conversionTask.
    by rewrite Hfail.
  - intros i f Hi. rewrite list_lookup_imap, Hi. simpl.
    rewrite conversionTask_status. case_match; split; congruence.
  - apply length_imap.
  - done.
  - intros i Hne. rewrite !list_lookup_imap.
    destruct (files s !! i) as [f|]; [simpl|done].
    unfold conversionTask.
    destruct (Hsame i (originalFile f) (options f) Hne) as [-> ->]. done.
Qed.

Lemma failure_is_isolated_witness :
  let s := run [FilesAccepted [Sample.a_png; Sample.b_jpg; Sample.c_png]]
               initial in
  ∃ file, files s !! 0%nat = Some file
    ∧ files (handleConvert (Sample.rejects_at 0) [1; 2; 0]%nat s) !! 0%nat
        = Some (with_status error file)
    ∧ ∀ i, i ≠ 0%nat →
        files (handleConvert Sample.fulfils [1; 2; 0]%nat s) !! i
        = files (handleConvert (Sample.rejects_at 0) [1; 2; 0]%nat s) !! i.
Proof.
  intros s. eexists. split; [by vm_compute|].
  assert (settles_all [1; 2; 0]%nat (length (files s))) as Hall.
  { apply (bool_decide_unpack _). by vm_compute. }
  edestruct (failure_is_isolated (Sample.rejects_at 0) Sample.fulfils
              [1; 2; 0]%nat s 0%nat) as (H0 & _ & _ & _ & Hothers).
  - by vm_compute.
  - by vm_compute.
  - exact Hall.
  - intros i f o Hne. simpl. split; [|done].
    destruct i; [done|]. done.
  - split; [exact H0|exact Hothers].
Defined.

(** ** C5: the order of the entries *)

(** C5: when a call of [handleConvert] resumes, [files] has as many entries
    as before the call, with the same id and the same [originalName] at
    every position, for every order in which the tasks settled: two runs
    that differ in that order only end in the same state. *)
Theorem convertAll_preserves_order (env : Browser) (order order' : list nat)
    (s : App) :
  settles_all order (length (files s)) →
  settles_all order' (length (files s)) →
  let s' := handleConvert env order s in
  length (files s') = length (files s)
  ∧ id <$> files s' = id <$> files s
  ∧ originalName <$> files s' = originalName <$> files s
  ∧ handleConvert env order' s = s'.
Proof.
  intros Hall Hall' s'. unfold s'.
  rewrite !handleConvert_settled by done. simpl.
  split; [unfold conversionPromises; apply length_imap|].
  split; [apply id_conversionPromises|].
  split; [apply originalName_conversionPromises|done].
Qed.

Lemma convertAll_preserves_order_witness :
  let s := run [FilesAccepted [Sample.a_png; Sample.b_jpg; Sample.c_png]]
               initial in
  id <$> files (handleConvert (Sample.rejects_at 1) [2; 1; 0]%nat s)
    = id <$> files s
  ∧ handleConvert (Sample.rejects_at 1) [0; 1; 2]%nat s
    = handleConvert (Sample.rejects_at 1) [2; 1; 0]%nat s.
Proof.
  intros s.
  assert (settles_all [2; 1; 0]%nat (length (files s))) as Hall.
  { apply (bool_decide_unpack _). by vm_compute. }
  assert (settles_all [0; 1; 2]%nat (length (files s))) as Hall'.
  { apply (bool_decide_unpack _). by vm_compute. }
  destruct (convertAll_preserves_order (Sample.rejects_at 1)
              [2; 1; 0]%nat [0; 1; 2]%nat s Hall Hall')
    as (_ & Hid & _ & Heq).
  split; [exact Hid|exact Heq].
Defined.

(** ** C6: [downloadAll] *)

(** C6, as stated, fails on two points.  The archive is delivered as
    [imagens-convertidas.zip], a name that does not start with
    [images-converted.]; and the name of a pair is the one the file got when
    it was converted: after [a.png] is converted to webp and the target of
    all entries is then set to png, the pair is still named [a.webp], not
    [a.png]. *)
Lemma downloadAll_names_differ :
  let s := run (Sample.converted_once ++ [ApplyToAll "png"]) initial in
  ui_reachable s
  ∧ status <$> files s = [converted]
  ∧ targetType <$> files s = ["png"]
  ∧ fst <$> fst (handleDownloadAll (files s)) = ["a.webp"]
  ∧ snd (handleDownloadAll (files s)) = "imagens-convertidas.zip"
  ∧ ¬ ∃ ext, snd (handleDownloadAll (files s)) = "images-converted." +:+ ext.
Proof.
  intros s. split.
  { apply ui_reachable_run; [constructor|by vm_compute]. }
  repeat split; try by vm_compute.
  intros [ext Hext]. vm_compute in Hext. discriminate Hext.
Qed.

(** C6, amended: [handleDownloadAll] hands to the archive, in the order of
    the batch, the pairs [(convertedFile.name, convertedFile)] of exactly the
    entries whose status is converted and whose converted file is present,
    so of no entry in status error, and delivers the archive under the name
    [imagens-convertidas.zip].  The name of a pair is the one given at
    conversion: right after a run of [handleConvert] the pairs are those of
    the entries whose compression fulfilled, each named by the stem of
    [originalName] (its prefix up to the last ['.']), a ['.'] and the target
    the entry had when the run started; setting the target of all entries
    afterwards changes none of the pairs. *)
Theorem handleDownloadAll_spec (env : Browser) (order : list nat) (s : App) :
  settles_all order (length (files s)) →
  (∀ files0,
     fst (handleDownloadAll files0) =
       omap (fun file => (fun f => (name f, f)) <$> convertedFile file)
            (filter (fun file => status file = converted) files0))
  ∧ (∀ files0, snd (handleDownloadAll files0) = "imagens-convertidas.zip")
  ∧ (∀ p, p ∈ fst (handleDownloadAll (files (handleConvert env order s))) ↔
       ∃ i file c,
         files s !! i = Some file
         ∧ imageCompression env i (originalFile file) (options file) = Some c
         ∧ let stem := JS.substring (originalName file) 0
                         (JS.lastIndexOf "." (originalName file)) in
           p = (stem +:+ "." +:+ targetType file,
                mkFile (stem +:+ "." +:+ targetType file) (Date_now env i)
                       ("image/" +:+ targetType file) (bits c)))
  ∧ (∀ newType files0,
       handleDownloadAll (handleApplyToAll newType files0)
       = handleDownloadAll files0).
Proof.
  intros Hall. split; [|split; [done|split]].
  - intros files0. apply zipFiles_filter.
  - intros p. rewrite handleConvert_settled by done. simpl.
    unfold zipFiles, conversionPromises. rewrite list_elem_of_omap. split.
    + intros (x & (i & file & -> & Hi)%elem_of_lookup_imap & Hx).
      unfold conversionTask in Hx.
      destruct (imageCompression env i (originalFile file) (options file))
        as [c|] eqn:Hc; simpl in Hx; [|done].
      injection Hx as <-. by exists i, file, c.
    + intros (i & file & c & Hi & Hc & ->).
      exists (conversionTask env i file). split.
      * by apply elem_of_lookup_imap_2.
      * unfold conversionTask. rewrite Hc. done.
  - intros newType files0. unfold handleDownloadAll.
    by rewrite zipFiles_handleApplyToAll.
Qed.

Lemma handleDownloadAll_spec_witness :
  let s := run (FilesAccepted [Sample.a_png; Sample.b_jpg; Sample.c_png]
                :: [ApplyToAll "png"]) initial in
  settles_all [0; 2; 1]%nat (length (files s))
  ∧ fst <$> fst (handleDownloadAll
                   (files (handleConvert (Sample.rejects_at 0)
                                         [0; 2; 1]%nat s)))
    = fst <$> omap (fun file => (fun f => (name f, f)) <$> convertedFile file)
        (filter (fun file => status file = converted)
           (files (handleConvert (Sample.rejects_at 0) [0; 2; 1]%nat s))).
Proof.
  intros s.
  assert (settles_all [0; 2; 1]%nat (length (files s))) as Hall.
  { apply (bool_decide_unpack _). by vm_compute. }
  split; [exact Hall|].
  destruct (handleDownloadAll_spec (Sample.rejects_at 0) [0; 2; 1]%nat s Hall)
    as (-> & _). done.
Defined.

(** ** C7: [setAllTargetFormats] *)

(** C7: [handleApplyToAll newType] gives every entry of the batch the
    target [newType], for every [newType] and so for webp, png and jpeg,
    whatever the status of the entry, and changes no other field and not
    the order; so after the target of one entry has been set on its own,
    [handleApplyToAll "png"] leaves every entry, that one included, with
    target png. *)
Theorem handleApplyToAll_spec (newType : string) (files0 : list FileEntry) :
  (∀ i, handleApplyToAll newType files0 !! i
        = with_targetType newType <$> files0 !! i)
  ∧ (∀ file, targetType (with_targetType newType file) = newType
             ∧ same_but_targetType file (with_targetType newType file))
  ∧ Forall (fun file => targetType file = newType)
           (handleApplyToAll newType files0)
  ∧ (∀ id0 t,
       Forall (fun file => targetType file = "png")
              (handleApplyToAll "png" (handleTargetTypeChange id0 t files0))).
Proof.
  assert (∀ t l, Forall (fun file => targetType file = t)
                        (handleApplyToAll t l)) as Hall.
  { intros t l. unfold handleApplyToAll. apply Forall_fmap.
    by apply Forall_forall. }
  split; [|split; [|split]].
  - intros i. unfold handleApplyToAll. apply list_lookup_fmap.
  - intros file. split; [done|]. by repeat split.
  - apply Hall.
  - intros id0 t. apply Hall.
Qed.

(** ** C8: [createBatch] *)

(** C8: [handleFilesAccepted] puts the phase to managing and replaces
    [files], whatever it held, by one entry per accepted file, in the order
    of the input: at position [i] the entry of the [i]-th file, with status
    pending, target webp, no converted file, and the id made of the file's
    name, its modification time and [i], joined by ['-']. *)
Theorem handleFilesAccepted_spec (acceptedFiles : list File) (s : App) :
  let s' := handleFilesAccepted acceptedFiles s in
  appState s' = Managing
  ∧ length (files s') = length acceptedFiles
  ∧ files s' = files (handleFilesAccepted acceptedFiles initial)
  ∧ ∀ i, files s' !! i =
      (fun file =>
         {| id := name file +:+ "-" +:+ pretty (lastModified file)
                            +:+ "-" +:+ pretty i;
            originalFile := file;
            originalName := name file;
            originalType := JS.split "/" (type file) !! 1%nat;
            targetType := "webp";
            status := pending;
            convertedFile := None |}) <$> acceptedFiles !! i.
Proof.
  simpl. split; [done|]. split; [apply length_imap|]. split; [done|].
  intros i. unfold newFiles. apply list_lookup_imap.
Qed.

(** ** C9: ids are unique *)

(** C9: the ids that [handleFilesAccepted] assigns are pairwise distinct,
    for any names and modification times; the ids of [files] are pairwise
    distinct after every sequence of calls; and setting targets or running
    [handleConvert] changes no id. *)
Theorem ids_pairwise_distinct (acceptedFiles : list File) (s : App)
    (evs : list Event) :
  NoDup (id <$> files (handleFilesAccepted acceptedFiles s))
  ∧ NoDup (id <$> files (run evs initial))
  ∧ (∀ id0 t, id <$> files (handle (TargetTypeChange id0 t) s)
              = id <$> files s)
  ∧ (∀ t, id <$> files (handle (ApplyToAll t) s) = id <$> files s)
  ∧ (∀ env order, id <$> files (handleConvert env order s) = id <$> files s).
Proof.
  split; [apply NoDup_id_newFiles|]. split.
  { apply distinct_ids_reachable, reachable_run. constructor. }
  split; [intros; apply id_handleTargetTypeChange|].
  split; [intros; apply id_handleApplyToAll|].
  intros env order.
  destruct (handleConvert_cases env order s) as [-> | ->]; simpl.
  - apply id_conversionPromises.
  - apply id_markConverting.
Qed.

(** ** C10: a name without ['.'] *)

(** C10: when [originalName] has no ['.'] and the compression fulfils, the
    converted file is named ['.'] followed by the target: [lastIndexOf]
    answers [-1], the stem [substring(0, -1)] is empty, and the original
    name is dropped. *)
Theorem newName_without_dot (env : Browser) (index : nat)
    (file : FileEntry) (compressedFile : File) :
  JS.includes "." (originalName file) = false →
  imageCompression env index (originalFile file) (options file)
    = Some compressedFile →
  JS.lastIndexOf "." (originalName file) = (-1)%Z
  ∧ status (conversionTask env index file) = converted
  ∧ name <$> convertedFile (conversionTask env index file)
      = Some ("." +:+ targetType file).
Proof.
  intros Hdot Hc. pose proof (lastIndexOf_absent _ _ Hdot) as Hlast.
  split; [done|]. unfold conversionTask. rewrite Hc. simpl.
  split; [done|]. unfold newName. by rewrite Hlast, substring_0_neg.
Qed.

Lemma newName_without_dot_witness :
  let file := newFile 0 Sample.README in
  JS.includes "." (originalName file) = false
  ∧ name <$> convertedFile (conversionTask Sample.fulfils 0 file)
      = Some ".webp".
Proof.
  intros file. split; [done|].
  apply (newName_without_dot Sample.fulfils 0 file Sample.README); done.
Defined.

(** * Further properties of the handlers *)

(** ** Properties of the batch that every handler keeps *)
Section kept.
Variable Q : list FileEntry → Prop.
Hypothesis Q_nil : Q [].
Hypothesis Q_new : ∀ acceptedFiles, Q (newFiles acceptedFiles).
Hypothesis Q_change : ∀ id0 t l, Q l → Q (handleTargetTypeChange id0 t l).
Hypothesis Q_all : ∀ t l, Q l → Q (handleApplyToAll t l).
Hypothesis Q_mark : ∀ l, Q l → Q (markConverting l).
Hypothesis Q_tasks : ∀ env l, Q l → Q (conversionPromises env l).

Lemma kept_reachable s :
  reachable s → Q (files s) ∧ Forall Q (awaiting s).
Proof using All.
  induction 1 as [|s ev _ [IHfiles IHjobs]]; [by split|].
  destruct ev as [acceptedFiles|id0 newType|newType| |job env order| ];
    simpl; try (split; by auto).
  - split; [by auto|]. apply Forall_app. split; [done|]. by constructor.
  - destruct (handleConvert_resume_files job env order s)
      as [->|(closed & Hjob & ->)]; [done|]. simpl. split.
    + apply Q_tasks. by eapply Forall_lookup_1 in IHjobs.
    + eapply Forall_forall. intros closed' Hin%list_elem_of_delete_inv.
      by eapply Forall_forall in IHjobs.
Qed.
End kept.

Section kept_ui.
Variable Q : list FileEntry → Prop.
Hypothesis Q_nil : Q [].
Hypothesis Q_new : ∀ acceptedFiles, Q (newFiles acceptedFiles).
Hypothesis Q_change : ∀ id0 t l,
  is_format t = true → Q l → Q (handleTargetTypeChange id0 t l).
Hypothesis Q_all : ∀ t l,
  is_format t = true → Q l → Q (handleApplyToAll t l).
Hypothesis Q_mark : ∀ l, Q l → Q (markConverting l).
Hypothesis Q_tasks : ∀ env l, Q l → Q (conversionPromises env l).

Lemma kept_ui_reachable s :
  ui_reachable s → Q (files s) ∧ Forall Q (awaiting s).
Proof using All.
  induction 1 as [|s ev _ [IHfiles IHjobs] Hev]; [by split|].
  destruct ev as [acceptedFiles|id0 newType|newType| |job env order| ];
    simpl in *; try (split; by auto).
  - apply andb_true_iff in Hev as [_ Hfmt]. split; by auto.
  - apply andb_true_iff in Hev as [_ Hfmt]. split; by auto.
  - split; [by auto|]. apply Forall_app. split; [done|]. by constructor.
  - destruct (handleConvert_resume_files job env order s)
      as [->|(closed & Hjob & ->)]; [done|]. simpl. split.
    + apply Q_tasks. by eapply Forall_lookup_1 in IHjobs.
    + eapply Forall_forall. intros closed' Hin%list_elem_of_delete_inv.
      by eapply Forall_forall in IHjobs.
Qed.
End kept_ui.

(** What the handlers do to one entry. *)
Section entries.
Implicit Types (file : FileEntry) (P : FileEntry → Prop).

(** A property of single entries that the spreads keep is kept by the
    handlers that map over [files]. *)
Lemma Forall_handleTargetTypeChange P id0 t l :
  (∀ file, P file → P (with_targetType t file)) →
  Forall P l → Forall P (handleTargetTypeChange id0 t l).
Proof.
  intros HP Hl. unfold handleTargetTypeChange. apply Forall_fmap.
  eapply Forall_impl; [exact Hl|]. intros file Hfile. simpl.
  case_match; auto.
Qed.

Lemma Forall_handleApplyToAll P t l :
  (∀ file, P file → P (with_targetType t file)) →
  Forall P l → Forall P (handleApplyToAll t l).
Proof.
  intros HP Hl. unfold handleApplyToAll. apply Forall_fmap.
  eapply Forall_impl; [exact Hl|]. auto.
Qed.

Lemma Forall_markConverting P l :
  (∀ file, P file → P (with_status converting file)) →
  Forall P l → Forall P (markConverting l).
Proof.
  intros HP Hl. unfold markConverting. apply Forall_fmap.
  eapply Forall_impl; [exact Hl|]. auto.
Qed.

Lemma Forall_conversionPromises P env l :
  (∀ i file, P file → P (conversionTask env i file)) →
  Forall P l → Forall P (conversionPromises env l).
Proof.
  intros HP Hl. apply Forall_forall.
  intros file (i & f & -> & Hf)%elem_of_lookup_imap.
  apply HP. eapply Forall_forall in Hl; [done|].
  by eapply list_elem_of_lookup_2.
Qed.

Lemma Forall_newFiles P acceptedFiles :
  (∀ i f, P (newFile i f)) → Forall P (newFiles acceptedFiles).
Proof.
  intros HP. apply Forall_forall.
  by intros file (i & f & -> & _)%elem_of_lookup_imap.
Qed.

Lemma targetType_conversionTask env i file :
  targetType (conversionTask env i file) = targetType file.
Proof. unfold conversionTask. by case_match. Qed.

Lemma originalFile_conversionTask env i file :
  originalFile (conversionTask env i file) = originalFile file.
Proof. unfold conversionTask. by case_match. Qed.

Lemma originalType_conversionTask env i file :
  originalType (conversionTask env i file) = originalType file.
Proof. unfold conversionTask. by case_match. Qed.

Lemma is_format_In t : is_format t = true ↔ t ∈ formats.
Proof.
  unfold is_format. rewrite existsb_exists. split.
  - intros (x & Hin & ->%String.eqb_eq). by apply list_elem_of_In.
  - intros Hin. exists t. split; [by apply list_elem_of_In|].
    apply String.eqb_refl.
Qed.
End entries.

(** ** X1: the phase and the statuses agree *)

(** X1: in every state reached through the page the phase and the statuses
    agree: in phase upload no entry is listed; in phase managing the entries
    are all pending or all converting; in phase converted every entry is
    converted or error, so the reset and archive buttons are offered only
    when no entry is pending or converting. *)
Theorem phase_agrees_through_page (s : App) :
  ui_reachable s → phase_agrees s.
Proof.
  induction 1 as [|s ev _ IH Hev]; [done|].
  unfold phase_agrees in *.
  destruct ev as [acceptedFiles|id0 newType|newType| |job env order| ];
    simpl in *.
  - left. by apply Forall_newFiles.
  - destruct (appState s); [done| |].
    + destruct IH as [IH|IH]; [left|right];
        by apply Forall_handleTargetTypeChange.
    + by apply Forall_handleTargetTypeChange.
  - destruct (appState s); [done| |].
    + destruct IH as [IH|IH]; [left|right]; by apply Forall_handleApplyToAll.
    + by apply Forall_handleApplyToAll.
  - apply bool_decide_eq_true in Hev. rewrite Hev. right.
    unfold markConverting. apply Forall_fmap. by apply Forall_forall.
  - destruct (handleConvert_resume_files job env order s)
      as [->|(closed & Hjob & ->)]; [done|]. simpl.
    apply Forall_forall. intros file (i & f & -> & _)%elem_of_lookup_imap.
    rewrite conversionTask_status.
    destruct (imageCompression env i (originalFile f) (options f)); auto.
  - done.
Qed.

Lemma phase_agrees_through_page_witness :
  let s := run Runs.pressed_twice initial in
  ui_reachable s
  ∧ appState s = Managing
  ∧ (Forall (fun file => status file = pending) (files s)
     ∨ Forall (fun file => status file = converting) (files s)).
Proof.
  intros s.
  assert (ui_reachable s) as Hs.
  { apply ui_reachable_run; [constructor|by vm_compute]. }
  split; [exact Hs|]. split; [by vm_compute|].
  exact (phase_agrees_through_page s Hs).
Defined.

(** ** X2: the formats asked of the compression *)

(** Through the page every target is one of the values of the selectors,
    and a converted file is named and typed for one of them. *)
Lemma formats_kept (s : App) :
  ui_reachable s →
  Forall (fun file =>
            is_format (targetType file) = true
            ∧ ∀ f, convertedFile file = Some f →
                ∃ t, is_format t = true ∧ converted_as t file f)
         (files s).
Proof.
  intros Hs.
  refine (proj1 (kept_ui_reachable (Forall _) _ _ _ _ _ _ s Hs)).
  - constructor.
  - intros acceptedFiles. apply Forall_newFiles. intros i f0. by split.
  - intros id0 t l Ht. apply Forall_handleTargetTypeChange.
    intros file [_ Hf]. by split.
  - intros t l Ht. apply Forall_handleApplyToAll.
    intros file [_ Hf]. by split.
  - intros l. by apply Forall_markConverting.
  - intros env l. apply Forall_conversionPromises.
    intros i file [Ht Hf]. rewrite targetType_conversionTask.
    split; [done|]. unfold conversionTask.
    destruct (imageCompression env i (originalFile file) (options file));
      simpl; [|done].
    intros f0 [= <-]. by exists (targetType file).
Qed.

(** X2: in every state reached through the page the target of every entry
    is webp, png or jpeg, so the MIME type asked of the compression for it
    is image/webp, image/png or image/jpeg. *)
Theorem targets_are_formats (s : App) (file : FileEntry) :
  ui_reachable s → file ∈ files s →
  targetType file ∈ ["webp"; "png"; "jpeg"]
  ∧ mimeType (options file) ∈ ["image/webp"; "image/png"; "image/jpeg"].
Proof.
  intros Hs Hin. pose proof (formats_kept s Hs) as Hall.
  eapply Forall_forall in Hall as [Ht _]; [|done].
  apply is_format_In in Ht. split; [done|].
  unfold options. simpl. unfold formats in Ht.
  repeat (apply elem_of_cons in Ht as [->|Ht];
          [rewrite !elem_of_cons; by auto|]).
  by apply elem_of_nil in Ht.
Qed.

Lemma targets_are_formats_witness :
  let s := run Sample.scenario initial in
  ∃ file, files s !! 1%nat = Some file
    ∧ mimeType (options file) ∈ ["image/webp"; "image/png"; "image/jpeg"].
Proof.
  intros s. eexists. split; [by vm_compute|].
  eapply (targets_are_formats s).
  - apply ui_reachable_run; [constructor|by vm_compute].
  - apply list_elem_of_lookup. exists 1%nat. by vm_compute.
Defined.

(** ** X3: [handleDownload] *)

(** X3: in every state reached through the page, [handleDownload] saves a
    file for exactly the entries in status converted, those for which the
    download button is rendered; the file is named by the stem of the
    original name and one of webp, png, jpeg, and has the MIME type of that
    same format. *)
Theorem handleDownload_through_page (s : App) (file : FileEntry) :
  ui_reachable s → file ∈ files s →
  (status file = converted →
     ∃ f t, handleDownload file = Some f
       ∧ t ∈ ["webp"; "png"; "jpeg"]
       ∧ name f = stem (originalName file) +:+ "." +:+ t
       ∧ type f = "image/" +:+ t)
  ∧ (status file ≠ converted → handleDownload file = None).
Proof.
  intros Hs Hin. unfold handleDownload.
  destruct (blob_iff_converted_ui s Hs) as (_ & _ & Hiff).
  eapply Forall_forall in Hiff; [|done]. unfold blob_iff_converted in Hiff.
  pose proof (formats_kept s Hs) as Hall.
  eapply Forall_forall in Hall as [_ Hf]; [|done]. split.
  - intros Hst. apply Hiff in Hst.
    destruct (convertedFile file) as [f0|]; [|done].
    destruct (Hf f0 eq_refl) as (t & Ht%is_format_In & Hname & Htype).
    by exists f0, t.
  - intros Hst. destruct (convertedFile file) as [f0|] eqn:Hc; [|done].
    destruct Hst. apply Hiff. done.
Qed.

Lemma handleDownload_through_page_witness :
  let s := run Runs.same_stem initial in
  ∃ file, files s !! 1%nat = Some file
    ∧ originalName file = "a.jpg"
    ∧ ∃ f t, handleDownload file = Some f
        ∧ t ∈ ["webp"; "png"; "jpeg"]
        ∧ name f = stem (originalName file) +:+ "." +:+ t
        ∧ type f = "image/" +:+ t.
Proof.
  intros s. eexists. split; [by vm_compute|]. split; [done|].
  eapply (handleDownload_through_page s).
  - apply ui_reachable_run; [constructor|by vm_compute].
  - apply list_elem_of_lookup. exists 1%nat. by vm_compute.
  - done.
Defined.

(** ** X4: the identifying fields never change *)

(** X4: after any sequence of handler calls, the entry at position [i] of
    [files] still has the id made of its own file's name, its modification
    time and [i], its [originalName] is the name of its file, and its
    [originalType] is the part of the file's MIME type after the first
    ['/']: no handler changes these fields, moves an entry, or drops one
    from the middle of the batch. *)
Theorem identity_fields_kept (s : App) (i : nat) (file : FileEntry) :
  reachable s → files s !! i = Some file →
  id file = name (originalFile file) +:+ "-"
              +:+ pretty (lastModified (originalFile file))
              +:+ "-" +:+ pretty i
  ∧ originalName file = name (originalFile file)
  ∧ originalType file = JS.split "/" (type (originalFile file)) !! 1%nat.
Proof.
  intros Hs Hi.
  assert (well_built (files s)) as Hbuilt; [|exact (Hbuilt i file Hi)].
  clear i file Hi.
  refine (proj1 (kept_reachable well_built _ _ _ _ _ _ s Hs)).
  - by intros i file Hi.
  - intros acceptedFiles i file Hi. unfold newFiles in Hi.
    apply list_lookup_imap_Some in Hi as (f0 & _ & ->). done.
  - intros id0 t l Hl i file Hi. unfold handleTargetTypeChange in Hi.
    apply list_lookup_fmap_Some in Hi as (file0 & -> & Hi).
    specialize (Hl i file0 Hi). by destruct (String.eqb (id file0) id0).
  - intros t l Hl i file Hi. unfold handleApplyToAll in Hi.
    apply list_lookup_fmap_Some in Hi as (file0 & -> & Hi).
    exact (Hl i file0 Hi).
  - intros l Hl i file Hi. unfold markConverting in Hi.
    apply list_lookup_fmap_Some in Hi as (file0 & -> & Hi).
    exact (Hl i file0 Hi).
  - intros env l Hl i file Hi. unfold conversionPromises in Hi.
    apply list_lookup_imap_Some in Hi as (file0 & Hi & ->).
    specialize (Hl i file0 Hi). unfold built_at in *.
    by rewrite id_conversionTask, originalName_conversionTask,
      originalType_conversionTask, originalFile_conversionTask.
Qed.

Lemma identity_fields_kept_witness :
  let s := run Sample.converted_twice initial in
  ∃ file, files s !! 0%nat = Some file
    ∧ status file = error
    ∧ id file = "a.png-1700000000000-0"
    ∧ originalType file = Some "png".
Proof.
  intros s. eexists. split; [by vm_compute|]. split; [done|].
  edestruct (identity_fields_kept s 0%nat) as (Hid & _ & Htype).
  - apply reachable_run. constructor.
  - by vm_compute.
  - split; [rewrite Hid; by vm_compute|rewrite Htype; by vm_compute].
Defined.

(** ** X5: a call waits for all its tasks *)

(** X5: as long as one task of a call of [handleConvert] has not settled,
    the call does not resume: the phase is as before the call and every
    entry is shown as converting, whatever the other tasks returned.  A call
    on an empty batch has nothing to wait for and resumes at once, in phase
    converted. *)
Theorem handleConvert_waits (env : Browser) (order : list nat) (s : App) :
  (¬ settles_all order (length (files s)) →
     handleConvert env order s = handleConvert_call s
     ∧ appState (handleConvert env order s) = appState s
     ∧ files (handleConvert env order s) = with_status converting <$> files s)
  ∧ (files s = [] →
     handleConvert env order s = mkApp [] Converted (awaiting s)).
Proof.
  split.
  - intros Hnot.
    assert (handleConvert env order s = handleConvert_call s) as ->; [|done].
    unfold settles_all in Hnot. apply not_Forall_Exists in Hnot; [|apply _].
    apply Exists_exists in Hnot as (i & Hi%elem_of_seq & Hout). simpl in Hout.
    unfold handleConvert, handleConvert_resume. simpl.
    rewrite list_lookup_middle by done.
    unfold updatedFiles.
    rewrite (Promise_all_unsettled order _ i); [done| |done].
    unfold conversionPromises. rewrite length_imap. lia.
  - intros Hnil. rewrite handleConvert_settled.
    + by rewrite Hnil.
    + rewrite Hnil. constructor.
Qed.

Lemma handleConvert_waits_witness :
  let s := run [FilesAccepted [Sample.a_png; Sample.b_jpg; Sample.c_png]]
               initial in
  ¬ settles_all [0; 2]%nat (length (files s))
  ∧ status <$> files (handleConvert Sample.fulfils [0; 2]%nat s)
      = [converting; converting; converting]
  ∧ appState (handleConvert Sample.fulfils [0; 2]%nat s) = Managing.
Proof.
  intros s.
  assert (¬ settles_all [0; 2]%nat (length (files s))) as Hnot.
  { apply (bool_decide_eq_false_1 _). by vm_compute. }
  split; [exact Hnot|].
  destruct (handleConvert_waits Sample.fulfils [0; 2]%nat s)
    as [Hwait _].
  destruct (Hwait Hnot) as (_ & -> & ->). by vm_compute.
Defined.

(** ** X6: what happens while a call is waiting *)

(** User actions never touch the arrays that waiting calls closed over. *)
Lemma awaiting_user_events (evs : list Event) : ∀ s job closed,
  forallb user_event evs = true →
  awaiting s !! job = Some closed →
  awaiting (run evs s) !! job = Some closed.
Proof.
  induction evs as [|ev evs IH]; intros s job closed Hevs Hjob; [done|].
  simpl in Hevs. apply andb_true_iff in Hevs as [Hev Hevs].
  apply (IH (handle ev s)); [done|].
  destruct ev; simpl; try done.
  by apply lookup_app_l_Some.
Qed.

(** X6: whatever the user does between a call of [handleConvert] and its
    resumption (setting targets, pressing convert again, resetting,
    accepting other files), when the call resumes [files] becomes the list
    of results for the batch the call started on, and the phase becomes
    converted: target changes made meanwhile are lost, and a reset or a
    newly accepted batch is replaced by the old one. *)
Theorem resumption_overwrites (evs : list Event) (s : App) (job : nat)
    (closed : list FileEntry) (env : Browser) (order : list nat) :
  awaiting s !! job = Some closed →
  forallb user_event evs = true →
  settles_all order (length closed) →
  let s' := handleConvert_resume job env order (run evs s) in
  files s' = imap (conversionTask env) closed
  ∧ appState s' = Converted
  ∧ targetType <$> files s' = targetType <$> closed.
Proof.
  intros Hjob Hevs Hall s'. unfold s'.
  rewrite (handleConvert_resume_settled _ _ _ _ closed);
    [|by apply awaiting_user_events|done].
  simpl. split; [done|]. split; [done|].
  unfold conversionPromises. rewrite fmap_imap.
  rewrite (imap_ext _ (fun _ => targetType)); [apply imap_const|].
  intros i file _. apply targetType_conversionTask.
Qed.

Lemma resumption_overwrites_witness :
  let s := run (take 4 Runs.pressed_twice) initial in
  let evs := drop 4 Runs.pressed_twice in
  ui_reachable (run evs s)
  ∧ forallb user_event evs = true
  ∧ originalName <$> files (run evs s) = ["b.jpg"]
  ∧ originalName <$>
      files (handleConvert_resume 0 Sample.fulfils [0%nat] (run evs s))
    = ["a.png"].
Proof.
  intros s evs. split; [|split; [by vm_compute|split; [by vm_compute|]]].
  - apply ui_reachable_run; [|by vm_compute].
    apply ui_reachable_run; [constructor|by vm_compute].
  - destruct (resumption_overwrites evs s 0%nat
                (markConverting (newFiles [Sample.a_png]))
                Sample.fulfils [0%nat]) as (-> & _).
    + by vm_compute.
    + by vm_compute.
    + apply (bool_decide_unpack _). by vm_compute.
    + by vm_compute.
Defined.

(** X7: a target chosen for all entries while the conversion is running is
    ignored: pressing convert, applying a format to all, and then resuming
    ends in the same state as a run of [handleConvert] without the
    change. *)
Theorem change_while_converting_ignored (env : Browser) (order : list nat)
    (s : App) (id0 newType : string) :
  settles_all order (length (files s)) →
  run [Convert; ApplyToAll newType;
       Resume (length (awaiting s)) env order] s
    = handleConvert env order s
  ∧ run [Convert; TargetTypeChange id0 newType;
         Resume (length (awaiting s)) env order] s
    = handleConvert env order s.
Proof.
  intros Hall. rewrite handleConvert_settled by done.
  split; simpl; unfold handleConvert_resume; simpl;
    rewrite list_lookup_middle by done;
    rewrite updatedFiles_settled by (intros i Hi; by eapply settles_all_lt);
    by rewrite delete_middle, app_nil_r.
Qed.

Lemma change_while_converting_ignored_witness :
  let s := run [FilesAccepted [Sample.a_png; Sample.b_jpg]] initial in
  name <$> omap convertedFile
    (files (run [Convert; ApplyToAll "png"; Resume 0 Sample.fulfils [1; 0]%nat]
                s))
  = ["a.webp"; "b.webp"].
Proof.
  intros s.
  destruct (change_while_converting_ignored Sample.fulfils [1; 0]%nat s
              "" "png") as [Heq _].
  { apply (bool_decide_unpack _). by vm_compute. }
  change (length (awaiting s)) with 0%nat in Heq. rewrite Heq.
  by vm_compute.
Defined.

(** ** X8: [originalType] *)

Lemma split_absent (sep : ascii) (s : string) :
  JS.includes sep s = false → JS.split sep s = [s].
Proof.
  induction s as [|a s IH]; [done|]. simpl.
  intros [Ha Hs]%orb_false_iff. by rewrite Ha, (IH Hs).
Qed.

Lemma split_first (sep : ascii) (a b : string) :
  JS.includes sep a = false →
  JS.split sep (a +:+ String sep b) = a :: JS.split sep b.
Proof.
  induction a as [|c a IH].
  - intros _. rewrite append_nil. simpl. by rewrite Ascii.eqb_refl.
  - intros [Hc Ha]%orb_false_iff. rewrite append_cons.
    simpl. by rewrite Hc, (IH Ha).
Qed.

(** X8: the [originalType] that [handleFilesAccepted] records is the part
    of the file's MIME type between its first and its second ['/']: for a
    type [a/b] it is [b]; for a type without ['/'], the empty type of a file
    the browser does not recognise among them, it is [undefined]. *)
Theorem originalType_of_mime (index : nat) (file : File) :
  (JS.includes "/" (type file) = false →
     originalType (newFile index file) = None)
  ∧ (∀ a b, type file = a +:+ String "/" b →
       JS.includes "/" a = false → JS.includes "/" b = false →
       originalType (newFile index file) = Some b)
  ∧ (∀ a b c, type file = a +:+ String "/" (b +:+ String "/" c) →
       JS.includes "/" a = false → JS.includes "/" b = false →
       originalType (newFile index file) = Some b).
Proof.
  simpl. split; [|split].
  - intros Hno. by rewrite split_absent.
  - intros a b -> Ha Hb. by rewrite split_first, split_absent.
  - intros a b c -> Ha Hb. by rewrite !split_first.
Qed.

Lemma originalType_of_mime_witness :
  originalType (newFile 0 (mkFile "drawing.svg" 3 "image/svg+xml" []))
    = Some "svg+xml"
  ∧ originalType (newFile 0 (mkFile "notes" 3 "" [])) = None.
Proof.
  split.
  - by apply (originalType_of_mime 0 (mkFile "drawing.svg" 3 "image/svg+xml" []))
      with (a := "image").
  - by apply (originalType_of_mime 0 (mkFile "notes" 3 "" [])).
Defined.

(** ** X9: the name of a converted file *)

Lemma includes_last (c : ascii) (s : string) :
  JS.includes c s = true →
  ∃ p ext, s = p +:+ String c ext ∧ JS.includes c ext = false.
Proof.
  induction s as [|a s IH]; [done|]. simpl. intros Hs.
  destruct (JS.includes c s) eqn:Hrest.
  - destruct (IH eq_refl) as (p & ext & -> & Hext).
    by exists (String a p), ext.
  - rewrite orb_false_r in Hs. apply Ascii.eqb_eq in Hs as ->.
    by exists "", s.
Qed.

(** X9: when the original name has a ['.'], it is its stem, a ['.'] and an
    extension without ['.']; a successful conversion keeps the stem, dots
    included, and replaces just that last extension by the target. *)
Theorem conversion_replaces_extension (env : Browser) (index : nat)
    (file : FileEntry) (compressedFile : File) :
  JS.includes "." (originalName file) = true →
  imageCompression env index (originalFile file) (options file)
    = Some compressedFile →
  ∃ ext, JS.includes "." ext = false
    ∧ originalName file = stem (originalName file) +:+ "." +:+ ext
    ∧ name <$> convertedFile (conversionTask env index file)
        = Some (stem (originalName file) +:+ "." +:+ targetType file).
Proof.
  intros Hdot Hc.
  destruct (includes_last _ _ Hdot) as (p & ext & Hname & Hext).
  exists ext. split; [done|].
  assert (stem (originalName file) = p) as ->.
  { unfold stem. by rewrite Hname, lastIndexOf_stem, substring_prefix. }
  split; [done|]. unfold conversionTask. rewrite Hc. simpl.
  by rewrite (newName_stem file p ext).
Qed.

Lemma conversion_replaces_extension_witness :
  let file := newFile 0 (mkFile "holiday.2024.jpeg" 9 "image/jpeg" [x07]) in
  name <$> convertedFile (conversionTask Sample.fulfils 0 file)
    = Some "holiday.2024.webp".
Proof.
  intros file.
  destruct (conversion_replaces_extension Sample.fulfils 0 file
              (originalFile file)) as (ext & _ & _ & ->); by vm_compute.
Defined.

(** ** X10: setting targets, composed *)

(** X10: of two target changes the later one wins: applying a format to all
    entries overrides every earlier choice, for one entry or for all; a
    second choice for an id replaces the first; and choices for two
    different ids do not depend on their order. *)
Theorem target_changes_compose (l : list FileEntry)
    (id1 id2 t1 t2 : string) :
  handleApplyToAll t2 (handleApplyToAll t1 l) = handleApplyToAll t2 l
  ∧ handleApplyToAll t2 (handleTargetTypeChange id1 t1 l)
    = handleApplyToAll t2 l
  ∧ handleTargetTypeChange id1 t2 (handleTargetTypeChange id1 t1 l)
    = handleTargetTypeChange id1 t2 l
  ∧ (id1 ≠ id2 →
     handleTargetTypeChange id2 t2 (handleTargetTypeChange id1 t1 l)
     = handleTargetTypeChange id1 t1 (handleTargetTypeChange id2 t2 l)).
Proof.
  unfold handleApplyToAll, handleTargetTypeChange.
  rewrite <- !list_fmap_compose.
  split; [|split; [|split]].
  - by apply list_fmap_ext.
  - apply list_fmap_ext. intros _ file _. simpl. by case_match.
  - apply list_fmap_ext. intros _ file _. simpl.
    destruct (String.eqb (id file) id1) eqn:Hid; simpl; by rewrite Hid.
  - intros Hne. apply list_fmap_ext. intros _ file _. simpl.
    destruct (String.eqb (id file) id1) eqn:H1;
      destruct (String.eqb (id file) id2) eqn:H2; simpl;
      rewrite ?H1, ?H2; try done.
    apply String.eqb_eq in H1, H2. congruence.
Qed.

Lemma target_changes_compose_witness :
  let l := newFiles [Sample.a_png; Sample.b_jpg] in
  targetType <$>
    handleTargetTypeChange "b.jpg-1700000000001-1" "jpeg"
      (handleTargetTypeChange "a.png-1700000000000-0" "png" l)
  = targetType <$>
    handleTargetTypeChange "a.png-1700000000000-0" "png"
      (handleTargetTypeChange "b.jpg-1700000000001-1" "jpeg" l).
Proof.
  intros l.
  destruct (target_changes_compose l "a.png-1700000000000-0"
              "b.jpg-1700000000001-1" "png" "jpeg") as (_ & _ & _ & ->);
    done.
Defined.

(** ** X11: converting a batch again *)

Lemma conversionTask_again env1 env2 i (file : FileEntry) :
  conversionTask env2 i (conversionTask env1 i file) =
    match imageCompression env2 i (originalFile file) (options file) with
    | Some _ => conversionTask env2 i file
    | None => with_status error (conversionTask env1 i file)
    end.
Proof.
  pose proof (id_conversionTask env1 i file) as Hid.
  pose proof (originalFile_conversionTask env1 i file) as Hfile.
  pose proof (originalName_conversionTask env1 i file) as Hname.
  pose proof (originalType_conversionTask env1 i file) as Htype.
  pose proof (targetType_conversionTask env1 i file) as Htarget.
  assert (options (conversionTask env1 i file) = options file) as Hopt.
  { unfold options. by rewrite Htarget. }
  revert Hid Hfile Hname Htype Htarget Hopt.
  generalize (conversionTask env1 i file). intros first.
  intros Hid Hfile Hname Htype Htarget Hopt.
  unfold conversionTask. rewrite Hfile, Hopt.
  destruct (imageCompression env2 i (originalFile file) (options file));
    [|done].
  unfold with_converted, newName.
  by rewrite Hid, Hfile, Hname, Htype, Htarget.
Qed.

(** X11: a second run of [handleConvert] on a batch converts every entry
    again from its original file and with its current target.  Where the
    second compression fulfils, the entry is exactly what a first conversion
    with it gives; where it rejects, the entry goes to status error and
    keeps whatever converted file the first run left. *)
Theorem reconversion (env1 env2 : Browser) (order1 order2 : list nat)
    (s : App) (i : nat) (file : FileEntry) :
  settles_all order1 (length (files s)) →
  settles_all order2 (length (files s)) →
  files s !! i = Some file →
  files (handleConvert env2 order2 (handleConvert env1 order1 s)) !! i =
    Some (match imageCompression env2 i (originalFile file) (options file)
          with
          | Some _ => conversionTask env2 i file
          | None => with_status error (conversionTask env1 i file)
          end).
Proof.
  intros Hall1 Hall2 Hi.
  rewrite (handleConvert_settled env1) by done.
  rewrite handleConvert_settled; simpl.
  - unfold conversionPromises. rewrite !list_lookup_imap, Hi. simpl.
    f_equal. apply conversionTask_again.
  - unfold conversionPromises. by rewrite length_imap.
Qed.

Lemma reconversion_witness :
  let s := run [FilesAccepted [Sample.a_png; Sample.b_jpg]] initial in
  (fun e => (status e, name <$> convertedFile e)) <$>
    files (handleConvert (Sample.rejects_at 0) [0; 1]%nat
             (handleConvert Sample.fulfils [1; 0]%nat s)) !! 0%nat
  = Some (error, Some "a.webp").
Proof.
  intros s.
  assert (∃ file, files s !! 0%nat = Some file) as [file Hfile].
  { eexists. by vm_compute. }
  rewrite (reconversion Sample.fulfils (Sample.rejects_at 0)
             [1; 0]%nat [0; 1]%nat s 0%nat file).
  - vm_compute in Hfile. injection Hfile as <-. by vm_compute.
  - apply (bool_decide_unpack _). by vm_compute.
  - apply (bool_decide_unpack _). by vm_compute.
  - exact Hfile.
Defined.

(** ** X12: the archive misses no converted entry *)

Lemma length_omap_total {A B} (g : A → option B) (l : list A) :
  Forall (fun x => is_Some (g x)) l → length (omap g l) = length l.
Proof.
  induction 1 as [|x l [y Hy] _ IH]; [done|].
  rewrite omap_cons, Hy. simpl. by rewrite IH.
Qed.

(** X12: after any sequence of handler calls, [handleDownloadAll] hands
    over one pair for each entry in status converted, none missing: the
    pair of every such entry is among them, and there are as many pairs as
    converted entries. *)
Theorem archive_has_every_converted (s : App) :
  reachable s →
  length (fst (handleDownloadAll (files s)))
    = length (filter (fun file => status file = converted) (files s))
  ∧ ∀ file, file ∈ files s → status file = converted →
      ∃ f, convertedFile file = Some f
        ∧ (name f, f) ∈ fst (handleDownloadAll (files s)).
Proof.
  intros Hs. pose proof (converted_has_blob_reachable s Hs) as Hblob.
  simpl. split.
  - rewrite zipFiles_filter. apply length_omap_total.
    apply Forall_forall. intros file [Hst Hin]%list_elem_of_filter.
    eapply Forall_forall in Hblob; [|done]. specialize (Hblob Hst).
    by destruct (convertedFile file).
  - intros file Hin Hst.
    eapply Forall_forall in Hblob; [|done]. specialize (Hblob Hst).
    destruct (convertedFile file) as [f0|] eqn:Hc; [|done].
    exists f0. split; [done|]. unfold zipFiles.
    apply list_elem_of_omap. exists file. split; [done|].
    by rewrite Hst, Hc.
Qed.

Lemma archive_has_every_converted_witness :
  let s := run Sample.converted_twice initial in
  length (fst (handleDownloadAll (files s))) = 0%nat
  ∧ length (fst (handleDownloadAll
                   (files (run Runs.same_stem initial)))) = 2%nat.
Proof.
  intros s. split.
  - destruct (archive_has_every_converted s) as [-> _]; [|by vm_compute].
    apply reachable_run. constructor.
  - destruct (archive_has_every_converted (run Runs.same_stem initial))
      as [-> _]; [|by vm_compute].
    apply reachable_run. constructor.
Defined.

(** ** X13: names in the archive can coincide *)

Lemma omap_duplicate {A B} (h : A → option B) : ∀ (l : list A) i j x y n,
  i ≠ j → l !! i = Some x → l !! j = Some y →
  h x = Some n → h y = Some n → ¬ NoDup (omap h l).
Proof.
  induction l as [|a l IH]; intros i j x y n Hne Hi Hj Hx Hy; [done|].
  rewrite omap_cons. destruct i as [|i], j as [|j]; simpl in Hi, Hj.
  - done.
  - injection Hi as ->. rewrite Hx. intros [Hnot _]%NoDup_cons.
    apply Hnot, list_elem_of_omap. exists y. split; [|done].
    by eapply list_elem_of_lookup_2.
  - injection Hj as ->. rewrite Hy. intros [Hnot _]%NoDup_cons.
    apply Hnot, list_elem_of_omap. exists x. split; [|done].
    by eapply list_elem_of_lookup_2.
  - assert (¬ NoDup (omap h l)) as Hdup.
    { apply (IH i j x y n); [lia|done..]. }
    destruct (h a); [|done]. by intros [_ ?]%NoDup_cons.
Qed.

Lemma fst_omap {A B C} (g : A → option (B * C)) (l : list A) :
  fst <$> omap g l = omap (fun x => fst <$> g x) l.
Proof.
  induction l as [|a l IH]; [done|].
  rewrite !omap_cons. destruct (g a) as [[b c]|]; [|exact IH].
  rewrite fmap_cons. simpl. f_equal. exact IH.
Qed.

(** X13: the names handed to the archive are not kept apart.  When two
    entries have the same stem and the same target, as [a.png] and [a.jpg]
    both converted to webp, and both compressions fulfil, the archive is
    handed two files under one and the same name. *)
Theorem archive_names_coincide (env : Browser) (order : list nat) (s : App)
    (i j : nat) (file1 file2 : FileEntry) (c1 c2 : File) :
  settles_all order (length (files s)) →
  i ≠ j → files s !! i = Some file1 → files s !! j = Some file2 →
  stem (originalName file1) = stem (originalName file2) →
  targetType file1 = targetType file2 →
  imageCompression env i (originalFile file1) (options file1) = Some c1 →
  imageCompression env j (originalFile file2) (options file2) = Some c2 →
  ¬ NoDup (fst <$> fst (handleDownloadAll
                          (files (handleConvert env order s)))).
Proof.
  intros Hall Hne Hi Hj Hstem Htarget Hc1 Hc2.
  rewrite handleConvert_settled by done. simpl. unfold zipFiles.
  rewrite fst_omap.
  apply (omap_duplicate _ _ i j (conversionTask env i file1)
           (conversionTask env j file2) (newName file1)); [done|..].
  - unfold conversionPromises. by rewrite list_lookup_imap, Hi.
  - unfold conversionPromises. by rewrite list_lookup_imap, Hj.
  - unfold conversionTask. by rewrite Hc1.
  - unfold conversionTask. rewrite Hc2. simpl. unfold newName.
    fold (stem (originalName file1)). fold (stem (originalName file2)).
    by rewrite Hstem, Htarget.
Qed.

Lemma archive_names_coincide_witness :
  let s := run (take 1 Runs.same_stem) initial in
  ui_reachable s
  ∧ ¬ NoDup (fst <$> fst (handleDownloadAll
                            (files (handleConvert Sample.fulfils
                                      [0; 1]%nat s)))).
Proof.
  intros s. split.
  { apply ui_reachable_run; [constructor|by vm_compute]. }
  assert (∃ file1 file2, files s !! 0%nat = Some file1
                         ∧ files s !! 1%nat = Some file2)
    as (file1 & file2 & H1 & H2).
  { do 2 eexists. split; by vm_compute. }
  eapply (archive_names_coincide Sample.fulfils [0; 1]%nat s 0%nat 1%nat
            file1 file2).
  - apply (bool_decide_unpack _). by vm_compute.
  - done.
  - exact H1.
  - exact H2.
  - vm_compute in H1, H2. injection H1 as <-. injection H2 as <-.
    by vm_compute.
  - vm_compute in H1, H2. injection H1 as <-. injection H2 as <-. done.
  - done.
  - done.
Defined.

(** ** X14: a selector changes its own entry alone *)

(** X14: after any sequence of handler calls, a target change for the id of
    the entry at position [i] replaces that entry by its copy with the new
    target and leaves the rest of the batch as it is: ids being pairwise
    distinct, no second entry answers to the id. *)
Theorem handleTargetTypeChange_one_entry (s : App) (i : nat)
    (file : FileEntry) (newType : string) :
  reachable s → files s !! i = Some file →
  handleTargetTypeChange (id file) newType (files s)
    = <[i := with_targetType newType file]> (files s).
Proof.
  intros Hs Hi. destruct (distinct_ids_reachable s Hs) as [Hnodup _].
  apply list_eq. intros j. unfold handleTargetTypeChange.
  rewrite list_lookup_fmap.
  destruct (decide (i = j)) as [<-|Hne].
  - rewrite list_lookup_insert_eq by (by eapply lookup_lt_Some).
    rewrite Hi. simpl. by rewrite String.eqb_refl.
  - rewrite list_lookup_insert_ne by done.
    destruct (files s !! j) as [other|] eqn:Hj; [simpl|done].
    destruct (String.eqb (id other) (id file)) eqn:Hid; [|done].
    apply String.eqb_eq in Hid. destruct Hne.
    eapply NoDup_lookup; [exact Hnodup|..]; rewrite list_lookup_fmap.
    + by rewrite Hi.
    + rewrite Hj. simpl. by rewrite Hid.
Qed.

Lemma handleTargetTypeChange_one_entry_witness :
  let s := run [FilesAccepted [Sample.a_png; Sample.a_png; Sample.a_png]]
               initial in
  targetType <$> handleTargetTypeChange "a.png-1700000000000-1" "jpeg" (files s)
  = ["webp"; "jpeg"; "webp"].
Proof.
  intros s.
  assert (∃ file, files s !! 1%nat = Some file
                  ∧ id file = "a.png-1700000000000-1") as (file & Hfile & <-).
  { eexists. split; by vm_compute. }
  rewrite (handleTargetTypeChange_one_entry s 1%nat file "jpeg").
  - vm_compute in Hfile. injection Hfile as <-. by vm_compute.
  - apply reachable_run. constructor.
  - exact Hfile.
Defined.
